(** * The XRT session cache: sessions, the pool and its scoped handles

    A shallow embedding of

    - [XrtSession] (xrt_session.cc): constructor and [Reset];
    - [XrtSessionCache] (xrt_session_cache.cc): [GetSession], [AddSession],
      [CreateSession];
    - [XrtSessionCache::XrtSessionRef] (xrt_session_cache.h): constructor,
      move constructor, move assignment, destructor, [MoveFrom], [Detach].

    C++ objects live in stores indexed by addresses; [std::shared_ptr] is an
    optional address ([None] is [nullptr]); the code runs in a state monad
    over the stores, with C++ exceptions and undefined behaviour as separate
    outcomes.  The mutex is a boolean of the pool, and a ghost trace records
    the lock operations and the calls the properties count. *)

From stdpp Require Import gmap strings list fin_maps.
From Stdlib Require Import ZArith.

Local Open Scope string_scope.
Local Open Scope list_scope.

(** ** Addresses and pointers *)

Abbreviation loc := positive (only parsing).

(** [std::shared_ptr<XrtSession>]: [None] is the null pointer.  Reference
    counts are not modelled: no code here frees a session. *)
Abbreviation shared_ptr := (option positive) (only parsing).

(** ** tensorflow types used by the constructor *)

Module tensorflow.

Record RPCOptions := mkRPCOptions {
  compression_algorithm : string;
  compression_level : Z
}.

(** [SessionOptions]: [env] is always [Env::Default()] and is left out;
    [config.rpc_options] is absent until [mutable_rpc_options] is called. *)
Record SessionOptions := mkSessionOptions {
  target : string;
  rpc_options : option RPCOptions
}.

(** [tensorflow::Scope], as returned by [Scope::NewRootScope()]. *)
Inductive Scope := NewRootScope.

(** [tensorflow::ClientSession(root, options)]: the open connection, which
    the pool never looks into. *)
Record ClientSession := mkClientSession {
  cs_scope : Scope;
  cs_options : SessionOptions
}.

End tensorflow.

(** ** XrtSession *)

Module XrtSession.

(** Modelled from the spec: the class [NodeCache] of xrt_session.h, which
    is not among the sources.  The spec's Session holds "an internal cache
    of named computation-graph nodes", and after reset "the cache must be
    treated as empty even if underlying storage is retained for reuse":
    a node cache is its stored nodes together with the number of them that
    are valid; [Rewind] puts that number back to zero and keeps the
    storage. *)
Record NodeCache := mkNodeCache {
  nodes_ : list string;
  position_ : nat
}.

(** Modelled from the spec: [NodeCache::Rewind], of the same header; only
    its call in [Reset] is among the sources. *)
Definition Rewind (c : NodeCache) : NodeCache :=
  {| nodes_ := nodes_ c; position_ := 0 |}.

(** The state a node cache is in after [Rewind]: nothing of it is valid. *)
Definition rewound (c : NodeCache) : Prop := position_ c = 0.

Record t := mk {
  target_ : string;
  root_ : tensorflow.Scope;
  session_ : tensorflow.ClientSession;
  node_cache_ : gmap string NodeCache
}.

(** [XrtSession::XrtSession(const SessionOptions&)]: [node_cache_] has no
    initializer and starts as the empty map. *)
Definition ctor (session_options : tensorflow.SessionOptions) : t :=
  let root := tensorflow.NewRootScope in
  {| target_ := tensorflow.target session_options;
     root_ := root;
     session_ := tensorflow.mkClientSession root session_options;
     node_cache_ := ∅ |}.

(** Modelled from the spec: [target()], of the same header, "returns the
    immutable target identifier the session is bound to". *)
Definition target (s : t) : string := target_ s.

(** [XrtSession::Reset]: every entry of [node_cache_] is rewound in place. *)
Definition Reset (s : t) : t :=
  {| target_ := target_ s;
     root_ := root_ s;
     session_ := session_ s;
     node_cache_ := Rewind <$> node_cache_ s |}.

(** The session state the spec calls empty/invalidated: every node cache of
    the session is rewound. *)
Definition invalidated (s : t) : Prop :=
  ∀ name c, node_cache_ s !! name = Some c → rewound c.

End XrtSession.

(** ** The pool and the handle *)

(** [std::deque] operations used by the pool; the back is the end of the
    list, and [back] of an empty deque has no value. *)
Module deque.
Definition empty {A} (q : list A) : bool :=
  match q with [] => true | _ => false end.
Definition back {A} (q : list A) : option A := last q.
Definition pop_back {A} (q : list A) : list A := removelast q.
Definition push_back {A} (q : list A) (x : A) : list A := q ++ [x].
End deque.

Record XrtSessionCache := mkCache {
  lock_ : bool;                                (* the mutex: [true] is held *)
  session_map_ : gmap string (list (option positive))
}.

Record XrtSessionRef := mkRef {
  cache_ : option positive;                    (* XrtSessionCache*, nullable *)
  session_ : option positive                   (* shared_ptr<XrtSession> *)
}.

(** The idle sessions of a target; a key that is absent reads as empty. *)
Definition idle (c : XrtSessionCache) (target : string) : list (option positive) :=
  default [] (session_map_ c !! target).

(** ** The world *)

(** [sys_util::GetEnvString] and [sys_util::GetEnvInt] (sys_util.h is not
    among the sources): taken as they are, a name and a default to a value. *)
Record SysUtil := mkSysUtil {
  GetEnvString : string → string → string;
  GetEnvInt : string → Z → Z
}.

Inductive Exception :=
  | ConnectionEstablishmentFailure (options : tensorflow.SessionOptions).

Inductive Fault :=
  | NullDereference
  | DanglingPointer
  | LockHeldMutex
  | BackOfEmptyDeque.

Inductive Event :=
  | EvLock (cache : positive)
  | EvUnlock (cache : positive)
  | EvCreateSession (target : string)
  | EvAddSession (cache : positive) (session : option positive).

Record World := mkWorld {
  sessions : gmap positive XrtSession.t;       (* objects behind shared_ptr *)
  caches : gmap positive XrtSessionCache;      (* the pools *)
  refs : gmap positive XrtSessionRef;          (* the handles, by address *)
  sys_util : SysUtil;                          (* the process environment *)
  establish : tensorflow.SessionOptions → bool;(* does the transport connect *)
  trace : list Event                           (* ghost: what happened so far *)
}.

Definition set_sessions (f : gmap positive XrtSession.t → gmap positive XrtSession.t)
    (w : World) : World :=
  mkWorld (f (sessions w)) (caches w) (refs w) (sys_util w) (establish w) (trace w).
Definition set_caches (f : gmap positive XrtSessionCache → gmap positive XrtSessionCache)
    (w : World) : World :=
  mkWorld (sessions w) (f (caches w)) (refs w) (sys_util w) (establish w) (trace w).
Definition set_refs (f : gmap positive XrtSessionRef → gmap positive XrtSessionRef)
    (w : World) : World :=
  mkWorld (sessions w) (caches w) (f (refs w)) (sys_util w) (establish w) (trace w).
Definition log (e : Event) (w : World) : World :=
  mkWorld (sessions w) (caches w) (refs w) (sys_util w) (establish w) (trace w ++ [e]).

(** ** The monad: state, exceptions, undefined behaviour *)

Inductive Outcome (A : Type) :=
  | Ret (a : A)
  | Throw (e : Exception)
  | Stuck (f : Fault).
Arguments Ret {A} a.
Arguments Throw {A} e.
Arguments Stuck {A} f.

Definition M (A : Type) : Type := World → Outcome A * World.

Definition ret {A} (a : A) : M A := λ w, (Ret a, w).
Definition throw {A} (e : Exception) : M A := λ w, (Throw e, w).
Definition stuck {A} (f : Fault) : M A := λ w, (Stuck f, w).

Definition bind {A B} (m : M A) (k : A → M B) : M B := λ w,
  match m w with
  | (Ret a, w') => k a w'
  | (Throw e, w') => (Throw e, w')
  | (Stuck f, w') => (Stuck f, w')
  end.

Declare Scope xrt_scope.
Delimit Scope xrt_scope with xrt.
Notation "'let*' x := m 'in' k" := (bind m (λ x, k))
  (at level 10, x pattern, m at level 100, k at level 200) : xrt_scope.
Notation "m ;; k" := (bind m (λ _, k))
  (at level 100, right associativity) : xrt_scope.
Local Open Scope xrt_scope.

Definition get : M World := λ w, (Ret w, w).
Definition modify (f : World → World) : M unit := λ w, (Ret tt, f w).

(** Dereferencing: a null pointer and an address without an object are
    undefined behaviour. *)
Definition deref_session (p : option positive) : M XrtSession.t := λ w,
  match p with
  | None => (Stuck NullDereference, w)
  | Some l =>
      match sessions w !! l with
      | Some s => (Ret s, w)
      | None => (Stuck DanglingPointer, w)
      end
  end.

Definition deref_cache (c : positive) : M XrtSessionCache := λ w,
  match caches w !! c with
  | Some x => (Ret x, w)
  | None => (Stuck DanglingPointer, w)
  end.

Definition deref_ref (r : positive) : M XrtSessionRef := λ w,
  match refs w !! r with
  | Some x => (Ret x, w)
  | None => (Stuck DanglingPointer, w)
  end.

(** ** The mutex and [std::lock_guard] *)

Definition with_lock (b : bool) (c : XrtSessionCache) : XrtSessionCache :=
  {| lock_ := b; session_map_ := session_map_ c |}.
Definition with_session_map (m : gmap string (list (option positive)))
    (c : XrtSessionCache) : XrtSessionCache :=
  {| lock_ := lock_ c; session_map_ := m |}.

(** [std::mutex::lock]: one thread of control, so a mutex that is already
    held never becomes free. *)
Definition mutex_lock (this : positive) : M unit :=
  let* c := deref_cache this in
  if lock_ c then stuck LockHeldMutex
  else modify (λ w, log (EvLock this) (set_caches <[this := with_lock true c]> w)).

Definition mutex_unlock (this : positive) : M unit :=
  let* c := deref_cache this in
  modify (λ w, log (EvUnlock this) (set_caches <[this := with_lock false c]> w)).

(** The destructor of a local runs when its scope is left by [return] and
    when an exception unwinds it. *)
Definition finally {A} (body : M A) (cleanup : M unit) : M A := λ w,
  match body w with
  | (Stuck f, w') => (Stuck f, w')
  | (r, w') =>
      match cleanup w' with
      | (Ret _, w'') => (r, w'')
      | (Throw e, w'') => (Throw e, w'')
      | (Stuck f, w'') => (Stuck f, w'')
      end
  end.

(** [std::lock_guard<std::mutex> lock(lock_);] at the top of a function
    body: the mutex is held until the body is left. *)
Definition lock_guard {A} (this : positive) (body : M A) : M A :=
  mutex_lock this ;; finally body (mutex_unlock this).

(** ** XrtSessionCache *)

(** [session_map_[key]]: [std::map::operator[]] inserts an empty deque under
    a key that is absent, and gives the deque under the key. *)
Definition session_map_at (this : positive) (key : string) : M (list (option positive)) :=
  let* c := deref_cache this in
  match session_map_ c !! key with
  | Some q => ret q
  | None =>
      modify (set_caches <[this := with_session_map (<[key := []]> (session_map_ c)) c]>) ;;
      ret []
  end.

(** A write through the reference that [session_map_[key]] gave. *)
Definition session_map_store (this : positive) (key : string)
    (q : list (option positive)) : M unit :=
  let* c := deref_cache this in
  modify (set_caches <[this := with_session_map (<[key := q]> (session_map_ c)) c]>).

(** [std::make_shared<XrtSession>(session_options)]: the constructor opens
    the connection, which the transport may refuse; the new object gets an
    address no session has. *)
Definition make_shared (session_options : tensorflow.SessionOptions) : M (option positive) :=
  let* w := get in
  if establish w session_options then
    let l := fresh (dom (sessions w)) in
    modify (set_sessions <[l := XrtSession.ctor session_options]>) ;;
    ret (Some l)
  else throw (ConnectionEstablishmentFailure session_options).

(** The [session_options] that [CreateSession] fills in (its lines up to the
    [make_shared]): the target, and the RPC compression when the environment
    names one. *)
Definition session_options (env : SysUtil) (target : string) : tensorflow.SessionOptions :=
  let compression := GetEnvString env "XRT_GRPC_COMPRESSION" "" in
  {| tensorflow.target := target;
     tensorflow.rpc_options :=
       if bool_decide (compression = "") then None
       else Some {| tensorflow.compression_algorithm := compression;
                    tensorflow.compression_level :=
                      GetEnvInt env "XRT_GRPC_COMPRESSION_LEVEL" 3 |} |}.

Definition CreateSession (this : positive) (target : string) : M (option positive) :=
  modify (log (EvCreateSession target)) ;;
  let* w := get in
  make_shared (session_options (sys_util w) target).

(** [session->Reset()] through the pointer. *)
Definition session_Reset (session : option positive) : M unit :=
  let* s := deref_session session in
  match session with
  | Some l => modify (set_sessions <[l := XrtSession.Reset s]>)
  | None => stuck NullDereference
  end.

(** [XrtSessionRef(XrtSessionCache* cache, std::shared_ptr<XrtSession> session)]:
    the members of the handle that [GetSession] returns. *)
Definition XrtSessionRef_ctor (cache : positive) (session : option positive) : XrtSessionRef :=
  {| cache_ := Some cache; session_ := session |}.

Definition GetSession (this : positive) (target : string) : M XrtSessionRef :=
  lock_guard this (
    let* session_queue := session_map_at this target in
    if negb (deque.empty session_queue) then
      let* session :=
        match deque.back session_queue with
        | Some p => ret p
        | None => stuck BackOfEmptyDeque
        end in
      session_map_store this target (deque.pop_back session_queue) ;;
      session_Reset session ;;
      ret (XrtSessionRef_ctor this session)
    else
      let* session := CreateSession this target in
      ret (XrtSessionRef_ctor this session)).

Definition AddSession (this : positive) (session : option positive) : M unit :=
  modify (log (EvAddSession this session)) ;;
  lock_guard this (
    let* s := deref_session session in
    let key := XrtSession.target s in
    let* q := session_map_at this key in
    session_map_store this key (deque.push_back q session)).

(** ** XrtSessionRef *)

Definition set_cache_ (this : positive) (c : option positive) : M unit :=
  let* r := deref_ref this in
  modify (set_refs <[this := {| cache_ := c; session_ := session_ r |}]>).

Definition set_session_ (this : positive) (s : option positive) : M unit :=
  let* r := deref_ref this in
  modify (set_refs <[this := {| cache_ := cache_ r; session_ := s |}]>).

(** [std::move(session_)] into a by-value parameter or another pointer:
    the value is taken and the source is left null. *)
Definition move_session_ (this : positive) : M (option positive) :=
  let* r := deref_ref this in
  set_session_ this None ;;
  ret (session_ r).

Definition Detach (this : positive) : M unit :=
  let* r := deref_ref this in
  match cache_ r with
  | Some cache =>
      let* session := move_session_ this in
      AddSession cache session ;;
      set_cache_ this None
  | None => ret tt
  end.

Definition MoveFrom (this rhs : positive) : M unit :=
  Detach this ;;
  let* r := deref_ref rhs in
  set_cache_ this (cache_ r) ;;
  set_cache_ rhs None ;;
  let* session := move_session_ rhs in
  set_session_ this session.

(** A handle object comes to life at an address no handle has: a returned
    handle in the variable of the caller, or the target of a move
    construction. *)
Definition new_ref (r : XrtSessionRef) : M positive :=
  let* w := get in
  let this := fresh (dom (refs w)) in
  modify (set_refs <[this := r]>) ;;
  ret this.

(** [XrtSessionRef(XrtSessionRef&& ref)]: the members start from their
    default initializers, then [MoveFrom]. *)
Definition XrtSessionRef_move_ctor (ref : positive) : M positive :=
  let* this := new_ref {| cache_ := None; session_ := None |} in
  MoveFrom this ref ;;
  ret this.

(** [~XrtSessionRef()]: [Detach], then the object is gone. *)
Definition XrtSessionRef_dtor (this : positive) : M unit :=
  Detach this ;;
  modify (set_refs (delete this)).

(** [XrtSessionRef& operator=(XrtSessionRef&& rhs)] *)
Definition move_assign (this rhs : positive) : M unit :=
  if bool_decide (rhs ≠ this) then MoveFrom this rhs else ret tt.

(** ** Reading the ghost trace *)

(** The events that happened between an earlier world and a later one. *)
Definition events_since (w w' : World) : list Event :=
  drop (length (trace w)) (trace w').

(** The mutex of pool [c], starting in state [b], at each [CreateSession] of
    the events: [true] is a creation under the lock. *)
Fixpoint lock_at_create (c : positive) (b : bool) (evs : list Event) : list bool :=
  match evs with
  | [] => []
  | EvLock c' :: evs => lock_at_create c (if decide (c' = c) then true else b) evs
  | EvUnlock c' :: evs => lock_at_create c (if decide (c' = c) then false else b) evs
  | EvCreateSession _ :: evs => b :: lock_at_create c b evs
  | EvAddSession _ _ :: evs => lock_at_create c b evs
  end.

Definition is_checkin (p : positive) (e : Event) : bool :=
  match e with
  | EvAddSession _ (Some q) => bool_decide (q = p)
  | _ => false
  end.

(** How many times [AddSession] was called with session [p]. *)
Definition checkins (p : positive) (evs : list Event) : nat :=
  length (List.filter (is_checkin p) evs).

(** ** Worlds to run the code in *)

(** No compression is configured: every variable reads as its default. *)
Definition no_env : SysUtil :=
  {| GetEnvString := λ _ d, d; GetEnvInt := λ _ d, d |}.

(** One pool, at address 1, with nothing idle; [ok] says whether the
    transport accepts connections. *)
Definition pool_empty (ok : bool) : World :=
  {| sessions := ∅;
     caches := {[ 1%positive := {| lock_ := false; session_map_ := ∅ |} ]};
     refs := ∅;
     sys_util := no_env;
     establish := λ _, ok;
     trace := [] |}.

(** ** Properties of the specification, as predicates *)

(** The creation path of [GetSession] runs [CreateSession] with the pool's
    mutex free. *)
Definition creation_outside_lock (w : World) (this : positive) (target : string) : Prop :=
  ∀ c, caches w !! this = Some c → idle c target = [] →
    Forall (λ b, b = false)
      (lock_at_create this (lock_ c) (events_since w (GetSession this target w).2)).

(** Partition isolation: every idle pointer of every pool is a live session
    whose target is the key it is filed under. *)
Definition partitioned (w : World) : Prop :=
  ∀ this c key q x, caches w !! this = Some c →
    session_map_ c !! key = Some q → x ∈ q →
    ∃ p s, x = Some p ∧ sessions w !! p = Some s ∧ XrtSession.target s = key.

(** ** The handle's release, by what it leaves *)

(** A handle that [Detach] can release: it is detached already, or its pool
    is there with the mutex free and its session is live. *)
Definition releasable (w : World) (r : XrtSessionRef) : Prop :=
  match cache_ r with
  | None => True
  | Some cache =>
      ∃ c p s, caches w !! cache = Some c ∧ lock_ c = false
        ∧ session_ r = Some p ∧ sessions w !! p = Some s
  end.

(** The events of one [Detach] of a handle in state [r]. *)
Definition Detach_events (r : XrtSessionRef) : list Event :=
  match cache_ r with
  | Some cache => [EvAddSession cache (session_ r); EvLock cache; EvUnlock cache]
  | None => []
  end.

(** The handle after [Detach]. *)
Definition Detach_result (r : XrtSessionRef) : XrtSessionRef :=
  match cache_ r with
  | Some _ => {| cache_ := None; session_ := None |}
  | None => r
  end.

(** What [Detach] of a handle in state [r] does to the rest of the world:
    sessions stay, the events are those of the check-in, every pool that was
    there with its mutex free still is, and the session is at the back of
    the idle deque of its target. *)
Definition Detach_effect (w : World) (r : XrtSessionRef) (w' : World) : Prop :=
  sessions w' = sessions w
  ∧ trace w' = trace w ++ Detach_events r
  ∧ (∀ k x, caches w !! k = Some x → lock_ x = false →
       ∃ x', caches w' !! k = Some x' ∧ lock_ x' = false)
  ∧ (cache_ r = None → caches w' = caches w)
  ∧ (∀ cache c p s, cache_ r = Some cache → session_ r = Some p →
       caches w !! cache = Some c → sessions w !! p = Some s →
       ∃ c', caches w' !! cache = Some c'
         ∧ idle c' (XrtSession.target s) = idle c (XrtSession.target s) ++ [Some p]).

(** ** Scopes: a move, then both handles are destroyed *)

Definition leave_scope (dst src : positive) (dst_first : bool) : M unit :=
  if dst_first then XrtSessionRef_dtor dst ;; XrtSessionRef_dtor src
  else XrtSessionRef_dtor src ;; XrtSessionRef_dtor dst.

Definition move_construct_and_leave (src : positive) (dst_first : bool) : M unit :=
  let* dst := XrtSessionRef_move_ctor src in
  leave_scope dst src dst_first.

Definition move_assign_and_leave (dst src : positive) (dst_first : bool) : M unit :=
  move_assign dst src ;;
  leave_scope dst src dst_first.

(** ** Worlds with handles *)

(** One checkout from the empty pool, bound to a local: handle 1 owns
    session 1 of target "a". *)
Definition pool_checked_out : World :=
  ((let* r := GetSession 1 "a" in new_ref r) (pool_empty true)).2.

(** Two checkouts: handle 1 owns session 1, handle 2 owns session 2. *)
Definition pool_two_checked_out : World :=
  ((let* r := GetSession 1 "a" in new_ref r) pool_checked_out).2.

(** The session and the pool state of those two worlds. *)
Definition session_a : XrtSession.t := XrtSession.ctor (session_options no_env "a").
Definition cache_a : XrtSessionCache :=
  {| lock_ := false; session_map_ := <["a" := []]> ∅ |}.

(** The stepping tactics unfold the methods themselves. *)
Arguments AddSession : simpl never.
Arguments GetSession : simpl never.
Arguments Detach : simpl never.
Arguments MoveFrom : simpl never.
Arguments XrtSessionRef_dtor : simpl never.

(** ** Further reading of the trace, and scenarios of a caller *)

Definition is_mutex_event (e : Event) : bool :=
  match e with
  | EvLock _ | EvUnlock _ => true
  | _ => false
  end.

Definition is_create_event (e : Event) : bool :=
  match e with
  | EvCreateSession _ => true
  | _ => false
  end.

(** A caller's checkout: the handle that [GetSession] returns is bound to a
    local variable. *)
Definition checkout (this : positive) (target : string) : M positive :=
  let* r := GetSession this target in
  new_ref r.


(** The pool after the one handle of [pool_checked_out] went out of scope:
    session 1 is idle for target "a"; [ok] says whether the transport would
    accept a new connection. *)
Definition pool_one_idle (ok : bool) : World :=
  let w := (XrtSessionRef_dtor 1 pool_checked_out).2 in
  {| sessions := sessions w; caches := caches w; refs := refs w;
     sys_util := sys_util w; establish := λ _, ok; trace := trace w |}.


(** Two checkouts in a row, both handles kept. *)
Definition checkout_twice (this : positive) (target : string) : M (positive * positive) :=
  let* h1 := checkout this target in
  let* h2 := checkout this target in
  ret (h1, h2).


(** The same session checked in twice, then two checkouts for a target. *)
Definition checkin_twice_checkout_twice (this : positive) (session : option positive)
    (target : string) : M (option positive * option positive) :=
  AddSession this session ;;
  AddSession this session ;;
  let* r1 := GetSession this target in
  let* r2 := GetSession this target in
  ret (session_ r1, session_ r2).


(** * Proofs *)

(** ** XrtSession *)

Lemma Rewind_Rewind c : XrtSession.Rewind (XrtSession.Rewind c) = XrtSession.Rewind c.
Proof. reflexivity. Qed.

Lemma Rewind_rewound c : XrtSession.rewound (XrtSession.Rewind c).
Proof. reflexivity. Qed.

Lemma Reset_target s : XrtSession.target (XrtSession.Reset s) = XrtSession.target s.
Proof. reflexivity. Qed.

Lemma Reset_invalidated s : XrtSession.invalidated (XrtSession.Reset s).
Proof.
  intros name c. cbn. rewrite lookup_fmap.
  destruct (XrtSession.node_cache_ s !! name) as [c0|]; cbn; [|done].
  intros [= <-]. apply Rewind_rewound.
Qed.

Lemma ctor_invalidated o : XrtSession.invalidated (XrtSession.ctor o).
Proof. intros name c. cbn. by rewrite lookup_empty. Qed.

(** C8. [XrtSession::Reset] is idempotent: a second [Reset] leaves the
    session exactly as the first one did; and [Reset] changes neither the
    target, nor the root scope, nor the client session (the connection): of
    the node caches it keeps the names and the stored nodes and only puts
    every position back to the start. *)
Theorem Reset_idempotent (s : XrtSession.t) :
  XrtSession.Reset (XrtSession.Reset s) = XrtSession.Reset s
  ∧ XrtSession.target (XrtSession.Reset s) = XrtSession.target s
  ∧ XrtSession.root_ (XrtSession.Reset s) = XrtSession.root_ s
  ∧ XrtSession.session_ (XrtSession.Reset s) = XrtSession.session_ s
  ∧ dom (XrtSession.node_cache_ (XrtSession.Reset s)) = dom (XrtSession.node_cache_ s)
  ∧ (∀ name c, XrtSession.node_cache_ s !! name = Some c →
       XrtSession.node_cache_ (XrtSession.Reset s) !! name
       = Some {| XrtSession.nodes_ := XrtSession.nodes_ c; XrtSession.position_ := 0 |}).
Proof.
  repeat split.
  - unfold XrtSession.Reset at 1 3. cbn. f_equal.
    rewrite <- map_fmap_compose. apply map_fmap_ext. intros ? c _. apply Rewind_Rewind.
  - cbn. apply dom_fmap_L.
  - intros name c Hc. cbn. by rewrite lookup_fmap, Hc.
Qed.

(** ** Running the monad *)

Ltac munfold :=
  unfold lock_guard, finally, mutex_lock, mutex_unlock, session_map_at,
    session_map_store, session_Reset, make_shared, move_session_, set_cache_,
    set_session_, new_ref, deref_cache, deref_session, deref_ref, bind, ret,
    modify, get, stuck, throw, log, set_caches, set_sessions, set_refs,
    with_lock, with_session_map, XrtSessionRef_ctor.

Lemma deque_empty_snoc {A} (q : list A) x : deque.empty (q ++ [x]) = false.
Proof. by destruct q. Qed.

Lemma deque_back_snoc {A} (q : list A) x : deque.back (q ++ [x]) = Some x.
Proof. apply last_snoc. Qed.

Lemma deque_pop_back_snoc {A} (q : list A) x : deque.pop_back (q ++ [x]) = q.
Proof. apply removelast_last. Qed.

Ltac mstep :=
  first
    [ progress cbn
    | rewrite lookup_insert_eq
    | rewrite deque_empty_snoc
    | rewrite deque_back_snoc
    | rewrite deque_pop_back_snoc
    | rewrite lookup_insert_ne by congruence
    | match goal with
      | H : ?x = _ |- context [?x] => rewrite H
      end ].

Ltac mrun := munfold; repeat mstep.

Lemma bind_Ret {A B} (m : M A) (k : A → M B) w a w1 :
  m w = (Ret a, w1) → bind m k w = k a w1.
Proof. unfold bind. by intros ->. Qed.

Lemma events_since_app w w' evs :
  trace w' = trace w ++ evs → events_since w w' = evs.
Proof. intros E. unfold events_since. rewrite E. apply drop_app_length. Qed.

(** ** The pool, step by step *)

Lemma GetSession_reuse w this target c q p s :
  caches w !! this = Some c → lock_ c = false →
  session_map_ c !! target = Some (q ++ [Some p]) →
  sessions w !! p = Some s →
  GetSession this target w =
    (Ret {| cache_ := Some this; session_ := Some p |},
     {| sessions := <[p := XrtSession.Reset s]> (sessions w);
        caches := <[this := {| lock_ := false; session_map_ := <[target := q]> (session_map_ c) |}]> (caches w);
        refs := refs w; sys_util := sys_util w; establish := establish w;
        trace := trace w ++ [EvLock this; EvUnlock this] |}).
Proof.
  intros Hc Hl Hq Hs. unfold GetSession. mrun.
  by rewrite !insert_insert_eq, <- app_assoc.
Qed.

Lemma GetSession_create w this target c :
  caches w !! this = Some c → lock_ c = false →
  idle c target = [] →
  let o := session_options (sys_util w) target in
  let cs := <[this := {| lock_ := false; session_map_ := <[target := []]> (session_map_ c) |}]> (caches w) in
  let tr := trace w ++ [EvLock this; EvCreateSession target; EvUnlock this] in
  GetSession this target w =
    if establish w o then
      (Ret {| cache_ := Some this; session_ := Some (fresh (dom (sessions w))) |},
       {| sessions := <[fresh (dom (sessions w)) := XrtSession.ctor o]> (sessions w);
          caches := cs; refs := refs w; sys_util := sys_util w;
          establish := establish w; trace := tr |})
    else
      (Throw (ConnectionEstablishmentFailure o),
       {| sessions := sessions w;
          caches := cs; refs := refs w; sys_util := sys_util w;
          establish := establish w; trace := tr |}).
Proof.
  intros Hc Hl Hq o cs tr. subst o cs tr. unfold idle in Hq.
  unfold GetSession, CreateSession.
  destruct (session_map_ c !! target) as [q|] eqn:Hm; cbn in Hq; subst; mrun.
  - rewrite (insert_id (session_map_ c) target []) by done.
    destruct (establish w _); mrun; by rewrite !insert_insert_eq, <- !app_assoc.
  - destruct (establish w _); mrun; by rewrite !insert_insert_eq, <- !app_assoc.
Qed.

Lemma AddSession_run w this c p s :
  caches w !! this = Some c → lock_ c = false →
  sessions w !! p = Some s →
  AddSession this (Some p) w =
    (Ret tt,
     {| sessions := sessions w;
        caches := <[this := {| lock_ := false;
                               session_map_ := <[XrtSession.target s := idle c (XrtSession.target s) ++ [Some p]]> (session_map_ c) |}]> (caches w);
        refs := refs w; sys_util := sys_util w; establish := establish w;
        trace := trace w ++ [EvAddSession this (Some p); EvLock this; EvUnlock this] |}).
Proof.
  intros Hc Hl Hs. unfold AddSession, idle, deque.push_back.
  destruct (session_map_ c !! XrtSession.target s) as [q|] eqn:Hm; mrun;
    by rewrite !insert_insert_eq, <- !app_assoc.
Qed.

(** What a call that is not undefined behaviour found on entry. *)
Lemma GetSession_inv w this target o w' :
  GetSession this target w = (o, w') →
  (∃ f, o = Stuck f)
  ∨ ∃ c, caches w !! this = Some c ∧ lock_ c = false
      ∧ (idle c target = []
         ∨ ∃ q p s, session_map_ c !! target = Some (q ++ [Some p])
                    ∧ sessions w !! p = Some s).
Proof.
  intros Hrun.
  destruct (caches w !! this) as [c|] eqn:Hc; cycle 1.
  { left. revert Hrun. unfold GetSession. mrun. intros [= <- _]. eauto. }
  destruct (lock_ c) eqn:Hl.
  { left. revert Hrun. unfold GetSession. mrun. intros [= <- _]. eauto. }
  destruct (session_map_ c !! target) as [q|] eqn:Hq; cycle 1.
  { right. exists c. unfold idle. rewrite Hq. eauto. }
  destruct q as [|x q _] using rev_ind.
  { right. exists c. unfold idle. rewrite Hq. eauto. }
  destruct x as [p|]; cycle 1.
  { left. revert Hrun. unfold GetSession. mrun. intros [= <- _]. eauto. }
  destruct (sessions w !! p) as [s|] eqn:Hs; cycle 1.
  { left. revert Hrun. unfold GetSession. mrun. intros [= <- _]. eauto. }
  right. exists c. split_and!; [done..|]. right. eauto.
Qed.

Lemma AddSession_inv w this session o w' :
  AddSession this session w = (o, w') →
  (∃ f, o = Stuck f)
  ∨ ∃ c p s, session = Some p ∧ caches w !! this = Some c ∧ lock_ c = false
             ∧ sessions w !! p = Some s.
Proof.
  intros Hrun.
  destruct (caches w !! this) as [c|] eqn:Hc; cycle 1.
  { left. revert Hrun. unfold AddSession. mrun. intros [= <- _]. eauto. }
  destruct (lock_ c) eqn:Hl.
  { left. revert Hrun. unfold AddSession. mrun. intros [= <- _]. eauto. }
  destruct session as [p|]; cycle 1.
  { left. revert Hrun. unfold AddSession. mrun. intros [= <- _]. eauto. }
  destruct (sessions w !! p) as [s|] eqn:Hs; cycle 1.
  { left. revert Hrun. unfold AddSession. mrun. intros [= <- _]. eauto. }
  right. exists c, p, s. done.
Qed.

(** [AddSession] and the reuse path of [GetSession], by what they leave. *)
Lemma AddSession_spec w this c p s :
  caches w !! this = Some c → lock_ c = false → sessions w !! p = Some s →
  ∃ w' c', AddSession this (Some p) w = (Ret tt, w')
    ∧ caches w' !! this = Some c' ∧ lock_ c' = false
    ∧ session_map_ c' = <[XrtSession.target s := idle c (XrtSession.target s) ++ [Some p]]> (session_map_ c)
    ∧ (∀ other, other ≠ this → caches w' !! other = caches w !! other)
    ∧ sessions w' = sessions w ∧ refs w' = refs w
    ∧ trace w' = trace w ++ [EvAddSession this (Some p); EvLock this; EvUnlock this].
Proof.
  intros Hc Hl Hs. eexists _, _. split; [by apply AddSession_run|]. cbn.
  split_and!; [apply lookup_insert_eq|done..| |done|done|done].
  intros other Hne. by rewrite lookup_insert_ne.
Qed.

Lemma GetSession_reuse_spec w this target c q p s :
  caches w !! this = Some c → lock_ c = false →
  session_map_ c !! target = Some (q ++ [Some p]) → sessions w !! p = Some s →
  ∃ w' c', GetSession this target w = (Ret {| cache_ := Some this; session_ := Some p |}, w')
    ∧ caches w' !! this = Some c' ∧ lock_ c' = false
    ∧ session_map_ c' = <[target := q]> (session_map_ c)
    ∧ sessions w' = <[p := XrtSession.Reset s]> (sessions w).
Proof.
  intros Hc Hl Hq Hs. eexists _, _. split; [by eapply GetSession_reuse|]. cbn.
  split_and!; [apply lookup_insert_eq|done..].
Qed.

(** ** Checkout: the lock, failure, and the state of the session *)

(** C1, as the specification states it, fails: with nothing idle for the
    target, [CreateSession] runs between the lock and the unlock of the
    pool's mutex. *)
Lemma creation_outside_lock_fails : ¬ creation_outside_lock (pool_empty true) 1 "a".
Proof.
  intros H.
  specialize (H {| lock_ := false; session_map_ := ∅ |} eq_refl eq_refl).
  vm_compute in H. inversion H as [|? ? Hb _]. discriminate Hb.
Qed.

(** C1, amended.  When [GetSession] finds nothing idle for the target, it
    calls [CreateSession] while it holds the pool's mutex: the [lock_guard]
    taken on entry is released only when [GetSession] is left, by return or
    by the exception of a failed creation, and the mutex is free again
    afterwards. *)
Theorem GetSession_creates_under_lock (w : World) (this : positive) (target : string)
    (c : XrtSessionCache) :
  caches w !! this = Some c → lock_ c = false → idle c target = [] →
  let w' := (GetSession this target w).2 in
  events_since w w' = [EvLock this; EvCreateSession target; EvUnlock this]
  ∧ lock_at_create this (lock_ c) (events_since w w') = [true]
  ∧ ∃ c', caches w' !! this = Some c' ∧ lock_ c' = false.
Proof.
  intros Hc Hl Hq w'. subst w'.
  rewrite (GetSession_create w this target c Hc Hl Hq). cbn zeta.
  destruct (establish w _); cbn [snd];
    (rewrite (events_since_app w _ [EvLock this; EvCreateSession target; EvUnlock this])
       by done; split; [done|]; split;
      [ rewrite Hl; cbn; by rewrite decide_True
      | eexists; split; [apply lookup_insert_eq | done] ]).
Qed.

Lemma GetSession_creates_under_lock_witness :
  let w' := (GetSession 1 "host:1" (pool_empty false)).2 in
  events_since (pool_empty false) w' = [EvLock 1; EvCreateSession "host:1"; EvUnlock 1]
  ∧ lock_at_create 1 false (events_since (pool_empty false) w') = [true]
  ∧ ∃ c', caches w' !! 1%positive = Some c' ∧ lock_ c' = false.
Proof.
  apply (GetSession_creates_under_lock (pool_empty false) 1 "host:1"
           {| lock_ := false; session_map_ := ∅ |}); reflexivity.
Defined.

(** C2. When [GetSession] takes the creation path and the creation fails,
    the idle-collection state of the pool is the same after the call as
    before it: every target has the idle sessions it had, a target without an
    entry reading as one with none idle, and no session, no handle, no other
    pool and not the mutex is changed.  In [session_map_] itself the lookup
    [session_map_[target]] leaves the entry of the requested target, with an
    empty deque, also when the target had none. *)
Theorem failed_creation_keeps_idle (w : World) (this : positive) (target : string)
    (c : XrtSessionCache) (e : Exception) (w' : World) :
  caches w !! this = Some c →
  GetSession this target w = (Throw e, w') →
  ∃ c', caches w' !! this = Some c'
    ∧ (∀ key, idle c' key = idle c key)
    ∧ session_map_ c' = <[target := []]> (session_map_ c)
    ∧ lock_ c' = lock_ c
    ∧ sessions w' = sessions w
    ∧ refs w' = refs w
    ∧ (∀ other, other ≠ this → caches w' !! other = caches w !! other).
Proof.
  intros Hc Hrun.
  destruct (GetSession_inv _ _ _ _ _ Hrun) as [[f [=]] | (c0 & Hc0 & Hl & Hcase)].
  rewrite Hc in Hc0. injection Hc0 as <-.
  destruct Hcase as [Hq | (q & p & s & Hq & Hs)]; cycle 1.
  { by rewrite (GetSession_reuse _ _ _ _ _ _ _ Hc Hl Hq Hs) in Hrun. }
  rewrite (GetSession_create _ _ _ _ Hc Hl Hq) in Hrun. cbn zeta in Hrun.
  destruct (establish w _); [done|]. injection Hrun as _ <-. cbn.
  eexists. split; [apply lookup_insert_eq|]. cbn. split_and!; try done.
  - intros key. unfold idle in *. cbn. destruct (decide (key = target)) as [->|Hk].
    + rewrite lookup_insert_eq. by rewrite Hq.
    + by rewrite lookup_insert_ne.
  - intros other Hne. by rewrite lookup_insert_ne.
Qed.

Lemma failed_creation_keeps_idle_witness :
  ∃ c', caches (GetSession 1 "a" (pool_empty false)).2 !! 1%positive = Some c'
    ∧ (∀ key, idle c' key = idle {| lock_ := false; session_map_ := ∅ |} key)
    ∧ session_map_ c' = <["a" := []]> ∅
    ∧ lock_ c' = false
    ∧ sessions (GetSession 1 "a" (pool_empty false)).2 = ∅
    ∧ refs (GetSession 1 "a" (pool_empty false)).2 = ∅
    ∧ (∀ other, other ≠ 1%positive →
         caches (GetSession 1 "a" (pool_empty false)).2 !! other = caches (pool_empty false) !! other).
Proof.
  apply (failed_creation_keeps_idle (pool_empty false) 1 "a"
           {| lock_ := false; session_map_ := ∅ |}
           (ConnectionEstablishmentFailure (session_options no_env "a"))); reflexivity.
Defined.

(** C5. A session handed out by [GetSession] is in the invalidated state at
    the moment the handle is returned, on both paths: the handle is bound to
    this pool and owns a live session all of whose node caches are rewound,
    because a reused session went through [Reset] and a new one starts with
    no node cache at all. *)
Theorem GetSession_invalidated (w : World) (this : positive) (target : string)
    (r : XrtSessionRef) (w' : World) :
  GetSession this target w = (Ret r, w') →
  ∃ p s, cache_ r = Some this ∧ session_ r = Some p
    ∧ sessions w' !! p = Some s
    ∧ XrtSession.invalidated s
    ∧ ((∃ s0, sessions w !! p = Some s0 ∧ s = XrtSession.Reset s0)
       ∨ (sessions w !! p = None ∧ XrtSession.node_cache_ s = ∅)).
Proof.
  intros Hrun.
  destruct (GetSession_inv _ _ _ _ _ Hrun) as [[f [=]] | (c & Hc & Hl & Hcase)].
  destruct Hcase as [Hq | (q & p & s & Hq & Hs)].
  - rewrite (GetSession_create _ _ _ _ Hc Hl Hq) in Hrun. cbn zeta in Hrun.
    destruct (establish w _); [|done]. injection Hrun as <- <-. cbn.
    eexists _, _. split_and!; [done..|apply lookup_insert_eq|apply ctor_invalidated|].
    right. split; [|done]. apply not_elem_of_dom, is_fresh.
  - rewrite (GetSession_reuse _ _ _ _ _ _ _ Hc Hl Hq Hs) in Hrun.
    injection Hrun as <- <-. cbn.
    eexists _, _. split_and!; [done..|apply lookup_insert_eq|apply Reset_invalidated|].
    left. eauto.
Qed.

Lemma GetSession_invalidated_witness :
  ∃ p s, cache_ (mkRef (Some 1%positive) (Some 1%positive)) = Some 1%positive
    ∧ session_ (mkRef (Some 1%positive) (Some 1%positive)) = Some p
    ∧ sessions (GetSession 1 "a" (pool_empty true)).2 !! p = Some s
    ∧ XrtSession.invalidated s
    ∧ ((∃ s0, sessions (pool_empty true) !! p = Some s0 ∧ s = XrtSession.Reset s0)
       ∨ (sessions (pool_empty true) !! p = None ∧ XrtSession.node_cache_ s = ∅)).
Proof.
  apply (GetSession_invalidated (pool_empty true) 1 "a"). reflexivity.
Defined.

(** ** Partition isolation *)

Lemma partitioned_AddSession w this p s c :
  partitioned w → caches w !! this = Some c → sessions w !! p = Some s →
  partitioned
    {| sessions := sessions w;
       caches := <[this := {| lock_ := false;
                              session_map_ := <[XrtSession.target s := idle c (XrtSession.target s) ++ [Some p]]> (session_map_ c) |}]> (caches w);
       refs := refs w; sys_util := sys_util w; establish := establish w;
       trace := trace w ++ [EvAddSession this (Some p); EvLock this; EvUnlock this] |}.
Proof.
  intros Hpart Hc Hs this0 c0 key q x. cbn.
  destruct (decide (this0 = this)) as [->|Hne]; cycle 1.
  { rewrite lookup_insert_ne by done. apply Hpart. }
  rewrite lookup_insert_eq. intros [= <-]. cbn.
  destruct (decide (key = XrtSession.target s)) as [->|Hk]; cycle 1.
  { rewrite lookup_insert_ne by done. intros. by eapply Hpart. }
  rewrite lookup_insert_eq. intros [= <-].
  rewrite elem_of_app, list_elem_of_singleton. intros [Hx | ->]; [|eauto].
  unfold idle in Hx.
  destruct (session_map_ c !! XrtSession.target s) as [q0|] eqn:Hq0; cbn in Hx.
  - by eapply Hpart.
  - by apply not_elem_of_nil in Hx.
Qed.

Lemma partitioned_reuse w this target c q p s :
  partitioned w → caches w !! this = Some c →
  session_map_ c !! target = Some (q ++ [Some p]) → sessions w !! p = Some s →
  partitioned
    {| sessions := <[p := XrtSession.Reset s]> (sessions w);
       caches := <[this := {| lock_ := false; session_map_ := <[target := q]> (session_map_ c) |}]> (caches w);
       refs := refs w; sys_util := sys_util w; establish := establish w;
       trace := trace w ++ [EvLock this; EvUnlock this] |}.
Proof.
  intros Hpart Hc Hq Hs this0 c0 key q0 x. cbn. intros Hc0 Hq0 Hx.
  assert (∃ p0 s0, x = Some p0 ∧ sessions w !! p0 = Some s0 ∧ XrtSession.target s0 = key)
    as (p0 & s0 & -> & Hs0 & Ht).
  { destruct (decide (this0 = this)) as [->|Hne]; cycle 1.
    { rewrite lookup_insert_ne in Hc0 by done. by eapply Hpart. }
    rewrite lookup_insert_eq in Hc0. injection Hc0 as <-. cbn in Hq0.
    destruct (decide (key = target)) as [->|Hk]; cycle 1.
    { rewrite lookup_insert_ne in Hq0 by done. by eapply Hpart. }
    rewrite lookup_insert_eq in Hq0. injection Hq0 as <-.
    eapply Hpart; [done..|]. apply elem_of_app. by left. }
  destruct (decide (p0 = p)) as [->|Hp].
  - exists p, (XrtSession.Reset s). rewrite lookup_insert_eq. by simplify_eq.
  - exists p0, s0. by rewrite lookup_insert_ne.
Qed.

Lemma partitioned_create w this target c (l : positive) o (b : bool) :
  partitioned w → caches w !! this = Some c → l ∉ dom (sessions w) →
  partitioned
    {| sessions := if b then <[l := XrtSession.ctor o]> (sessions w) else sessions w;
       caches := <[this := {| lock_ := false; session_map_ := <[target := []]> (session_map_ c) |}]> (caches w);
       refs := refs w; sys_util := sys_util w; establish := establish w;
       trace := trace w ++ [EvLock this; EvCreateSession target; EvUnlock this] |}.
Proof.
  intros Hpart Hc Hl this0 c0 key q0 x. cbn. intros Hc0 Hq0 Hx.
  assert (∃ p0 s0, x = Some p0 ∧ sessions w !! p0 = Some s0 ∧ XrtSession.target s0 = key)
    as (p0 & s0 & -> & Hs0 & Ht).
  { destruct (decide (this0 = this)) as [->|Hne]; cycle 1.
    { rewrite lookup_insert_ne in Hc0 by done. by eapply Hpart. }
    rewrite lookup_insert_eq in Hc0. injection Hc0 as <-. cbn in Hq0.
    destruct (decide (key = target)) as [->|Hk]; cycle 1.
    { rewrite lookup_insert_ne in Hq0 by done. by eapply Hpart. }
    rewrite lookup_insert_eq in Hq0. injection Hq0 as <-.
    by apply not_elem_of_nil in Hx. }
  exists p0, s0. split_and!; [done| |done].
  destruct b; [|done]. rewrite lookup_insert_ne; [done|].
  intros ->. apply Hl, elem_of_dom. eauto.
Qed.

(** With its mutex free and its idle sessions filed by target, the pool
    answers every [GetSession]: with a handle, or with the exception of a
    creation that the transport refused. *)
Lemma GetSession_returns w this target c :
  caches w !! this = Some c → lock_ c = false → partitioned w →
  ∃ o w', GetSession this target w = (o, w')
    ∧ ((∃ r, o = Ret r)
       ∨ (∃ e, o = Throw e ∧ idle c target = []
            ∧ establish w (session_options (sys_util w) target) = false)).
Proof.
  intros Hc Hl Hpart.
  assert (idle c target = [] ∨ ∃ q x, session_map_ c !! target = Some (q ++ [x])) as [Hq|Hq].
  { unfold idle. destruct (session_map_ c !! target) as [q|]; [|by left].
    destruct q as [|x q _] using rev_ind; [by left|]. right. eauto. }
  - rewrite (GetSession_create _ _ _ _ Hc Hl Hq). cbn zeta.
    destruct (establish w _) eqn:He; eexists _, _; (split; [done|]); eauto 10.
  - destruct Hq as (q & x & Hq).
    destruct (Hpart this c target _ x Hc Hq) as (p & s & -> & Hs & _).
    { apply elem_of_app. right. by apply list_elem_of_singleton. }
    rewrite (GetSession_reuse _ _ _ _ _ _ _ Hc Hl Hq Hs). eauto 10.
Qed.

(** C6. Partition isolation.  Filing every idle session under its own target
    is an invariant of the pool: it holds while nothing is idle, [AddSession]
    and [GetSession] keep it, also when the creation fails; [AddSession]
    appends the session at the back of the deque under [session->target()]
    and touches no other key; and the session of a handle that
    [GetSession(target)] returns has that target. *)
Theorem partition_isolation :
  (∀ w, (∀ this c, caches w !! this = Some c → session_map_ c = ∅) → partitioned w)
  ∧ (∀ w this session w',
       partitioned w → AddSession this session w = (Ret tt, w') →
       partitioned w'
       ∧ ∃ p s c c', session = Some p ∧ sessions w !! p = Some s
           ∧ caches w !! this = Some c ∧ caches w' !! this = Some c'
           ∧ idle c' (XrtSession.target s) = idle c (XrtSession.target s) ++ [Some p]
           ∧ ∀ key, key ≠ XrtSession.target s →
               session_map_ c' !! key = session_map_ c !! key)
  ∧ (∀ w this target r w',
       partitioned w → GetSession this target w = (Ret r, w') →
       partitioned w'
       ∧ ∃ p s, session_ r = Some p ∧ sessions w' !! p = Some s
           ∧ XrtSession.target s = target)
  ∧ (∀ w this target e w',
       partitioned w → GetSession this target w = (Throw e, w') → partitioned w').
Proof.
  split_and!.
  - intros w Hempty this c key q x Hc Hq. rewrite (Hempty _ _ Hc) in Hq.
    by rewrite lookup_empty in Hq.
  - intros w this session w' Hpart Hrun.
    destruct (AddSession_inv _ _ _ _ _ Hrun) as [[f [=]] | (c & p & s & -> & Hc & Hl & Hs)].
    rewrite (AddSession_run _ _ _ _ _ Hc Hl Hs) in Hrun. injection Hrun as <-.
    split; [by apply partitioned_AddSession|].
    exists p, s, c. eexists. cbn. split_and!; [done..|apply lookup_insert_eq| |].
    + unfold idle at 1. cbn. by rewrite lookup_insert_eq.
    + intros key Hk. cbn. by rewrite lookup_insert_ne.
  - intros w this target r w' Hpart Hrun.
    destruct (GetSession_inv _ _ _ _ _ Hrun) as [[f [=]] | (c & Hc & Hl & Hcase)].
    destruct Hcase as [Hq | (q & p & s & Hq & Hs)].
    + rewrite (GetSession_create _ _ _ _ Hc Hl Hq) in Hrun. cbn zeta in Hrun.
      destruct (establish w _) eqn:He; [|done]. injection Hrun as <- <-.
      split.
      * apply (partitioned_create w this target c _ _ true Hpart Hc), is_fresh.
      * eexists _, _. cbn. split_and!; [done|apply lookup_insert_eq|done].
    + rewrite (GetSession_reuse _ _ _ _ _ _ _ Hc Hl Hq Hs) in Hrun.
      injection Hrun as <- <-.
      split; [by apply partitioned_reuse|].
      eexists _, _. cbn. split_and!; [done|apply lookup_insert_eq|].
      destruct (Hpart this c target _ (Some p) Hc Hq) as (p0 & s0 & [= <-] & Hs0 & Ht).
      { apply elem_of_app. right. by apply list_elem_of_singleton. }
      rewrite Hs in Hs0. by injection Hs0 as <-.
  - intros w this target e w' Hpart Hrun.
    destruct (GetSession_inv _ _ _ _ _ Hrun) as [[f [=]] | (c & Hc & Hl & Hcase)].
    destruct Hcase as [Hq | (q & p & s & Hq & Hs)].
    + rewrite (GetSession_create _ _ _ _ Hc Hl Hq) in Hrun. cbn zeta in Hrun.
      destruct (establish w _) eqn:He; [done|]. injection Hrun as _ <-.
      apply (partitioned_create w this target c (fresh (dom (sessions w)))
               (session_options (sys_util w) target) false Hpart Hc), is_fresh.
    + by rewrite (GetSession_reuse _ _ _ _ _ _ _ Hc Hl Hq Hs) in Hrun.
Qed.

Lemma partition_isolation_witness :
  partitioned (pool_empty true)
  ∧ partitioned (GetSession 1 "a" (pool_empty true)).2
  ∧ ∃ p s, session_ {| cache_ := Some 1%positive; session_ := Some 1%positive |} = Some p
      ∧ sessions (GetSession 1 "a" (pool_empty true)).2 !! p = Some s
      ∧ XrtSession.target s = "a".
Proof.
  destruct partition_isolation as (Hempty & _ & Hget & _).
  assert (partitioned (pool_empty true)) as Hpart.
  { apply Hempty. intros this c Hc.
    destruct (decide (this = 1%positive)) as [->|Hne].
    - vm_compute in Hc. injection Hc as <-. reflexivity.
    - unfold pool_empty in Hc. cbn in Hc. rewrite lookup_singleton_ne in Hc by done.
      discriminate Hc. }
  split; [exact Hpart|].
  apply (Hget (pool_empty true) 1%positive "a"); [exact Hpart | reflexivity].
Defined.

(** ** Last in, first out *)

(** C4. The idle sessions of a target are handed out last in, first out:
    [AddSession] appends at the back of the target's deque and [GetSession]
    takes from the back, so after S1 and then S2 were checked in for one
    target, the next checkout for it returns S2, the one after it S1, and the
    deque is as it was before the two check-ins. *)
Theorem checkout_LIFO (w : World) (this : positive) (c : XrtSessionCache)
    (p1 p2 : positive) (s1 s2 : XrtSession.t) (target : string) :
  caches w !! this = Some c → lock_ c = false →
  sessions w !! p1 = Some s1 → sessions w !! p2 = Some s2 →
  XrtSession.target s1 = target → XrtSession.target s2 = target →
  ∃ w2 c2 w4 c4,
    (AddSession this (Some p1) ;; AddSession this (Some p2)) w = (Ret tt, w2)
    ∧ caches w2 !! this = Some c2
    ∧ idle c2 target = idle c target ++ [Some p1; Some p2]
    ∧ (let* h2 := GetSession this target in
       let* h1 := GetSession this target in
       ret (session_ h2, session_ h1)) w2 = (Ret (Some p2, Some p1), w4)
    ∧ caches w4 !! this = Some c4
    ∧ idle c4 target = idle c target.
Proof.
  intros Hc Hl Hs1 Hs2 Ht1 Ht2.
  destruct (AddSession_spec w this c p1 s1 Hc Hl Hs1)
    as (w1 & c1 & Hrun1 & Hc1 & Hl1 & Hm1 & _ & Hss1 & _).
  rewrite Ht1 in Hm1.
  assert (idle c1 target = idle c target ++ [Some p1]) as Hi1.
  { unfold idle at 1. by rewrite Hm1, lookup_insert_eq. }
  rewrite <- Hss1 in Hs2.
  destruct (AddSession_spec w1 this c1 p2 s2 Hc1 Hl1 Hs2)
    as (w2 & c2 & Hrun2 & Hc2 & Hl2 & Hm2 & _ & Hss2 & _).
  rewrite Ht2, Hi1 in Hm2.
  assert (session_map_ c2 !! target = Some ((idle c target ++ [Some p1]) ++ [Some p2])) as Hq2.
  { by rewrite Hm2, lookup_insert_eq. }
  rewrite <- Hss2 in Hs2.
  destruct (GetSession_reuse_spec w2 this target c2 _ p2 s2 Hc2 Hl2 Hq2 Hs2)
    as (w3 & c3 & Hrun3 & Hc3 & Hl3 & Hm3 & Hss3).
  assert (session_map_ c3 !! target = Some (idle c target ++ [Some p1])) as Hq3.
  { by rewrite Hm3, lookup_insert_eq. }
  assert (∃ s1', sessions w3 !! p1 = Some s1') as [s1' Hs1'].
  { rewrite Hss3, Hss2, Hss1. destruct (decide (p1 = p2)) as [->|Hne].
    - rewrite lookup_insert_eq. eauto.
    - rewrite lookup_insert_ne by done. eauto. }
  destruct (GetSession_reuse_spec w3 this target c3 _ p1 s1' Hc3 Hl3 Hq3 Hs1')
    as (w4 & c4 & Hrun4 & Hc4 & Hl4 & Hm4 & Hss4).
  exists w2, c2, w4, c4. split_and!.
  - by rewrite (bind_Ret _ _ _ _ _ Hrun1).
  - done.
  - unfold idle at 1. by rewrite Hq2, <- app_assoc.
  - by rewrite (bind_Ret _ _ _ _ _ Hrun3), (bind_Ret _ _ _ _ _ Hrun4).
  - done.
  - unfold idle at 1. rewrite Hm4, lookup_insert_eq. cbn. done.
Qed.

Lemma checkout_LIFO_witness :
  ∃ w2 c2 w4 c4,
    (AddSession 1 (Some 1%positive) ;; AddSession 1 (Some 2%positive)) pool_two_checked_out
      = (Ret tt, w2)
    ∧ caches w2 !! 1%positive = Some c2
    ∧ idle c2 "a" = idle cache_a "a" ++ [Some 1%positive; Some 2%positive]
    ∧ (let* h2 := GetSession 1 "a" in
       let* h1 := GetSession 1 "a" in
       ret (session_ h2, session_ h1)) w2 = (Ret (Some 2%positive, Some 1%positive), w4)
    ∧ caches w4 !! 1%positive = Some c4
    ∧ idle c4 "a" = idle cache_a "a".
Proof.
  apply (checkout_LIFO pool_two_checked_out 1 cache_a 1 2 session_a session_a "a");
    vm_compute; reflexivity.
Defined.

(** ** The handle: release *)

Lemma Detach_null w this r :
  refs w !! this = Some r → cache_ r = None → Detach this w = (Ret tt, w).
Proof. intros Hr Hn. unfold Detach. mrun. done. Qed.

Lemma Detach_owning w this cache p c s :
  refs w !! this = Some {| cache_ := Some cache; session_ := Some p |} →
  caches w !! cache = Some c → lock_ c = false → sessions w !! p = Some s →
  Detach this w =
    (Ret tt,
     {| sessions := sessions w;
        caches := <[cache := {| lock_ := false;
                                session_map_ := <[XrtSession.target s := idle c (XrtSession.target s) ++ [Some p]]> (session_map_ c) |}]> (caches w);
        refs := <[this := {| cache_ := None; session_ := None |}]> (refs w);
        sys_util := sys_util w; establish := establish w;
        trace := trace w ++ [EvAddSession cache (Some p); EvLock cache; EvUnlock cache] |}).
Proof.
  intros Hr Hc Hl Hs. unfold Detach. mrun.
  erewrite AddSession_run by (cbn; eauto). mrun.
  by rewrite insert_insert_eq.
Qed.

Lemma Detach_spec w this r :
  refs w !! this = Some r → releasable w r →
  ∃ w', Detach this w = (Ret tt, w')
    ∧ refs w' = <[this := Detach_result r]> (refs w)
    ∧ Detach_effect w r w'.
Proof.
  intros Hr Hrel. unfold releasable, Detach_effect, Detach_events, Detach_result in *.
  destruct r as [[cache|] sess]; cbn in *.
  - destruct Hrel as (c & p & s & Hc & Hl & -> & Hs).
    eexists. split; [by eapply Detach_owning|]. cbn. split_and!; try done.
    + intros k x Hk Hx. destruct (decide (k = cache)) as [->|Hne].
      * rewrite lookup_insert_eq. eauto.
      * rewrite lookup_insert_ne by done. eauto.
    + intros ? c0 p0 s0 [= <-] [= <-] Hc0 Hs0. simplify_eq.
      eexists. split; [apply lookup_insert_eq|]. unfold idle at 1. cbn.
      by rewrite lookup_insert_eq.
  - exists w. split; [by eapply Detach_null|]. split_and!; try done.
    + by rewrite insert_id.
    + by rewrite app_nil_r.
    + eauto.
Qed.

Lemma Detach_inv w this w' :
  Detach this w = (Ret tt, w') →
  ∃ r, refs w !! this = Some r ∧ releasable w r.
Proof.
  destruct (refs w !! this) as [r|] eqn:Hr; cycle 1.
  { unfold Detach. mrun. done. }
  intros Hrun. exists r. split; [done|]. unfold releasable.
  destruct r as [[cache|] sess]; cbn; [|done].
  revert Hrun. unfold Detach. mrun.
  match goal with
  | |- context [AddSession cache sess ?W] =>
      destruct (AddSession cache sess W) as [[[]|e|f] w2] eqn:Hadd; [|done..]
  end.
  intros _.
  destruct (AddSession_inv _ _ _ _ _ Hadd) as [[f [=]] | (c & p & s & -> & Hc & Hl & Hs)].
  cbn in Hc, Hs. eauto 10.
Qed.

(** C7. Release is idempotent and guarded by the back-reference: running
    [Detach] twice is running it once; with a null [cache_] it changes
    nothing at all; with a non-null [cache_] it calls [AddSession] on that
    pool with the owned session, once, and leaves the handle with a null
    [cache_], so that a second [Detach] is a no-op; and it does return
    whenever the pool is there with its mutex free and the session is
    live. *)
Theorem Detach_idempotent (w : World) (this : positive) :
  (Detach this ;; Detach this) w = Detach this w
  ∧ (∀ r, refs w !! this = Some r → cache_ r = None → Detach this w = (Ret tt, w))
  ∧ (∀ r cache w', refs w !! this = Some r → cache_ r = Some cache →
       Detach this w = (Ret tt, w') →
       events_since w w' = [EvAddSession cache (session_ r); EvLock cache; EvUnlock cache]
       ∧ refs w' !! this = Some {| cache_ := None; session_ := None |}
       ∧ Detach this w' = (Ret tt, w'))
  ∧ (∀ r, refs w !! this = Some r → releasable w r → ∃ w', Detach this w = (Ret tt, w')).
Proof.
  assert (∀ w', Detach this w = (Ret tt, w') →
            ∃ r, refs w !! this = Some r
              ∧ refs w' !! this = Some (Detach_result r)
              ∧ trace w' = trace w ++ Detach_events r) as Hafter.
  { intros w' Hrun. destruct (Detach_inv _ _ _ Hrun) as (r & Hr & Hrel).
    destruct (Detach_spec _ _ _ Hr Hrel) as (w1 & Hrun1 & Hrefs & _ & Htr & _).
    rewrite Hrun in Hrun1. injection Hrun1 as <-.
    exists r. split_and!; [done| |done]. rewrite Hrefs. apply lookup_insert_eq. }
  split_and!.
  - unfold bind. destruct (Detach this w) as [[[]|e|f] w1] eqn:Hrun; [|done..].
    destruct (Hafter _ eq_refl) as (r & _ & Hr1 & _).
    eapply Detach_null; [done|]. unfold Detach_result. by destruct (cache_ r) eqn:E.
  - intros r. apply Detach_null.
  - intros r cache w' Hr Hcache Hrun.
    destruct (Hafter _ Hrun) as (r0 & Hr0 & Hr1 & Htr).
    rewrite Hr in Hr0. injection Hr0 as <-.
    unfold Detach_result, Detach_events in *. rewrite Hcache in *.
    split_and!; [by apply events_since_app|done|by eapply Detach_null].
  - intros r Hr Hrel. destruct (Detach_spec _ _ _ Hr Hrel) as (w' & Hrun & _). eauto.
Qed.

Lemma Detach_idempotent_witness :
  (Detach 1 ;; Detach 1) pool_checked_out = Detach 1 pool_checked_out
  ∧ (∃ w', Detach 1 pool_checked_out = (Ret tt, w'))
  ∧ events_since pool_checked_out (Detach 1 pool_checked_out).2
    = [EvAddSession 1 (Some 1%positive); EvLock 1; EvUnlock 1]
  ∧ refs (Detach 1 pool_checked_out).2 !! 1%positive
    = Some {| cache_ := None; session_ := None |}
  ∧ Detach 1 (Detach 1 pool_checked_out).2 = (Ret tt, (Detach 1 pool_checked_out).2).
Proof.
  destruct (Detach_idempotent pool_checked_out 1) as (Htwice & _ & Howning & Hreturns).
  split; [exact Htwice|]. split.
  - apply (Hreturns {| cache_ := Some 1%positive; session_ := Some 1%positive |});
      [reflexivity|]. exists cache_a, 1%positive, session_a. repeat split; reflexivity.
  - apply (Howning {| cache_ := Some 1%positive; session_ := Some 1%positive |} 1%positive);
      reflexivity.
Defined.

(** ** The handle: moves and the end of the scope *)

Lemma Detach_effect_refs w r w1 w' :
  Detach_effect w r w1 →
  sessions w' = sessions w1 → caches w' = caches w1 → trace w' = trace w1 →
  Detach_effect w r w'.
Proof. unfold Detach_effect. by intros ? -> -> ->. Qed.

Lemma MoveFrom_spec w this rhs rt rr :
  this ≠ rhs → refs w !! this = Some rt → releasable w rt →
  refs w !! rhs = Some rr →
  ∃ w', MoveFrom this rhs w = (Ret tt, w')
    ∧ refs w' = <[this := rr]> (<[rhs := {| cache_ := None; session_ := None |}]> (refs w))
    ∧ Detach_effect w rt w'.
Proof.
  intros Hne Ht Hrel Hr.
  destruct (Detach_spec _ _ _ Ht Hrel) as (w1 & Hrun1 & Hrefs1 & Heff).
  assert (refs w1 !! this = Some (Detach_result rt)) as Ht1
    by (rewrite Hrefs1; apply lookup_insert_eq).
  assert (refs w1 !! rhs = Some rr) as Hr1
    by (rewrite Hrefs1, lookup_insert_ne; done).
  unfold MoveFrom. rewrite (bind_Ret _ _ _ _ _ Hrun1). mrun.
  eexists. split; [done|]. cbn. split.
  - destruct rr as [rc rs]. cbn.
    apply map_eq. intros i.
    destruct (decide (i = this)) as [->|Hi]; [by rewrite !lookup_insert_eq|].
    rewrite !(lookup_insert_ne _ this) by done.
    destruct (decide (i = rhs)) as [->|Hi']; [by rewrite !lookup_insert_eq|].
    by rewrite !lookup_insert_ne by done.
  - by eapply Detach_effect_refs.
Qed.

Lemma MoveFrom_null w this rhs rt rr :
  this ≠ rhs → refs w !! this = Some rt → cache_ rt = None →
  refs w !! rhs = Some rr →
  MoveFrom this rhs w =
    (Ret tt,
     {| sessions := sessions w; caches := caches w;
        refs := <[this := rr]> (<[rhs := {| cache_ := None; session_ := None |}]> (refs w));
        sys_util := sys_util w; establish := establish w; trace := trace w |}).
Proof.
  intros Hne Ht Hnull Hr.
  unfold MoveFrom. rewrite (bind_Ret _ _ _ _ _ (Detach_null _ _ _ Ht Hnull)). mrun.
  do 2 f_equal. destruct rr as [rc rs]. cbn.
  apply map_eq. intros i.
  destruct (decide (i = this)) as [->|Hi]; [by rewrite !lookup_insert_eq|].
  rewrite !(lookup_insert_ne _ this) by done.
  destruct (decide (i = rhs)) as [->|Hi']; [by rewrite !lookup_insert_eq|].
  by rewrite !lookup_insert_ne by done.
Qed.

Lemma XrtSessionRef_dtor_spec w this r :
  refs w !! this = Some r → releasable w r →
  ∃ w', XrtSessionRef_dtor this w = (Ret tt, w')
    ∧ refs w' = delete this (refs w)
    ∧ Detach_effect w r w'.
Proof.
  intros Hr Hrel.
  destruct (Detach_spec _ _ _ Hr Hrel) as (w1 & Hrun1 & Hrefs1 & Heff).
  unfold XrtSessionRef_dtor. rewrite (bind_Ret _ _ _ _ _ Hrun1). mrun.
  eexists. split; [done|]. cbn. split.
  - by rewrite delete_insert_eq.
  - by eapply Detach_effect_refs.
Qed.

Lemma XrtSessionRef_move_ctor_run w ref rr :
  refs w !! ref = Some rr →
  fresh (dom (refs w)) ≠ ref
  ∧ XrtSessionRef_move_ctor ref w =
      (Ret (fresh (dom (refs w))),
       {| sessions := sessions w; caches := caches w;
          refs := <[fresh (dom (refs w)) := rr]>
                    (<[ref := {| cache_ := None; session_ := None |}]> (refs w));
          sys_util := sys_util w; establish := establish w; trace := trace w |}).
Proof.
  intros Hr.
  assert (fresh (dom (refs w)) ≠ ref) as Hne.
  { intros E. apply (is_fresh (dom (refs w))). rewrite E. apply elem_of_dom. eauto. }
  split; [done|].
  unfold XrtSessionRef_move_ctor. mrun.
  erewrite MoveFrom_null; [| done | apply lookup_insert_eq | done
                           | cbn; by rewrite lookup_insert_ne ].
  cbn. do 2 f_equal.
  apply map_eq. intros i.
  destruct (decide (i = fresh (dom (refs w)))) as [->|Hi]; [by rewrite !lookup_insert_eq|].
  rewrite !(lookup_insert_ne _ (fresh (dom (refs w)))) by done.
  destruct (decide (i = ref)) as [->|Hi']; [by rewrite !lookup_insert_eq|].
  by rewrite !lookup_insert_ne by done.
Qed.

Lemma checkins_app p evs1 evs2 :
  checkins p (evs1 ++ evs2) = checkins p evs1 + checkins p evs2.
Proof. unfold checkins. by rewrite List.filter_app, length_app. Qed.

Lemma checkins_Detach_events p r :
  checkins p (Detach_events r)
  = match cache_ r with
    | Some _ => if bool_decide (session_ r = Some p) then 1 else 0
    | None => 0
    end.
Proof.
  unfold Detach_events. destruct r as [[cache|] [q|]]; cbn; try done.
  destruct (decide (q = p)) as [->|Hne].
  - by rewrite !bool_decide_true.
  - rewrite !bool_decide_false; [done|congruence|done].
Qed.

(** The end of the scope after a move: the destination owns the session and
    the source is neutralized. *)
Lemma leave_scope_spec w dst src cache p c s dst_first :
  dst ≠ src →
  refs w !! dst = Some {| cache_ := Some cache; session_ := Some p |} →
  refs w !! src = Some {| cache_ := None; session_ := None |} →
  caches w !! cache = Some c → lock_ c = false → sessions w !! p = Some s →
  ∃ w', leave_scope dst src dst_first w = (Ret tt, w')
    ∧ trace w' = trace w ++ [EvAddSession cache (Some p); EvLock cache; EvUnlock cache]
    ∧ refs w' !! dst = None ∧ refs w' !! src = None
    ∧ ∃ c', caches w' !! cache = Some c'
        ∧ idle c' (XrtSession.target s) = idle c (XrtSession.target s) ++ [Some p].
Proof.
  intros Hne Hd Hs Hc Hl Hp.
  assert (releasable w {| cache_ := Some cache; session_ := Some p |}) as Hrel
    by (cbn; eauto 10).
  unfold leave_scope. destruct dst_first.
  - destruct (XrtSessionRef_dtor_spec w dst _ Hd Hrel)
      as (w1 & Hrun1 & Hrefs1 & Hs1 & Htr1 & _ & _ & Hin1).
    destruct (Hin1 _ _ _ _ eq_refl eq_refl Hc Hp) as (c' & Hc' & Hidle).
    assert (refs w1 !! src = Some {| cache_ := None; session_ := None |}) as Hs'
      by (rewrite Hrefs1, lookup_delete_ne; done).
    destruct (XrtSessionRef_dtor_spec w1 src _ Hs' I)
      as (w2 & Hrun2 & Hrefs2 & Hs2 & Htr2 & _ & Hcs2 & _).
    exists w2. rewrite (bind_Ret _ _ _ _ _ Hrun1). split_and!; [done|..].
    + rewrite Htr2, Htr1. cbn. by rewrite app_nil_r.
    + rewrite Hrefs2, Hrefs1, lookup_delete_ne by done. apply lookup_delete_eq.
    + rewrite Hrefs2. apply lookup_delete_eq.
    + rewrite (Hcs2 eq_refl). eauto.
  - destruct (XrtSessionRef_dtor_spec w src _ Hs I)
      as (w1 & Hrun1 & Hrefs1 & Hs1 & Htr1 & _ & Hcs1 & _).
    specialize (Hcs1 eq_refl).
    assert (refs w1 !! dst = Some {| cache_ := Some cache; session_ := Some p |}) as Hd'
      by (rewrite Hrefs1, lookup_delete_ne; done).
    assert (releasable w1 {| cache_ := Some cache; session_ := Some p |}) as Hrel'
      by (cbn; rewrite Hcs1, Hs1; eauto 10).
    destruct (XrtSessionRef_dtor_spec w1 dst _ Hd' Hrel')
      as (w2 & Hrun2 & Hrefs2 & Hs2 & Htr2 & _ & _ & Hin2).
    rewrite <- Hcs1 in Hc. rewrite <- Hs1 in Hp.
    destruct (Hin2 _ _ _ _ eq_refl eq_refl Hc Hp) as (c' & Hc' & Hidle).
    exists w2. rewrite (bind_Ret _ _ _ _ _ Hrun1). split_and!; [done|..].
    + rewrite Htr2, Htr1. cbn. by rewrite app_nil_r.
    + rewrite Hrefs2. apply lookup_delete_eq.
    + rewrite Hrefs2, Hrefs1, lookup_delete_ne by done. apply lookup_delete_eq.
    + eauto.
Qed.

(** C9. Move-assigning into a handle that still owns a session does not drop
    that session: when destination [d] owns S1 (in a pool whose mutex is
    free) and a different handle [s] owns S2, [d = std::move(s)] checks S1
    in, with exactly one [AddSession] call that appends S1 at the back of the
    idle deque of its target, and then [d] owns S2 with the back-reference of
    [s], while [s] is left with a null back-reference and a null session. *)
Theorem move_assign_releases_destination (w : World) (d s : positive)
    (c1 p1 c2 p2 : positive) (x1 : XrtSessionCache) (s1 : XrtSession.t) :
  d ≠ s →
  refs w !! d = Some {| cache_ := Some c1; session_ := Some p1 |} →
  refs w !! s = Some {| cache_ := Some c2; session_ := Some p2 |} →
  caches w !! c1 = Some x1 → lock_ x1 = false → sessions w !! p1 = Some s1 →
  ∃ w', move_assign d s w = (Ret tt, w')
    ∧ events_since w w' = [EvAddSession c1 (Some p1); EvLock c1; EvUnlock c1]
    ∧ checkins p1 (events_since w w') = 1
    ∧ (∃ x1', caches w' !! c1 = Some x1'
         ∧ idle x1' (XrtSession.target s1) = idle x1 (XrtSession.target s1) ++ [Some p1])
    ∧ refs w' !! d = Some {| cache_ := Some c2; session_ := Some p2 |}
    ∧ refs w' !! s = Some {| cache_ := None; session_ := None |}
    ∧ sessions w' = sessions w.
Proof.
  intros Hne Hd Hs Hc Hl Hp.
  assert (releasable w {| cache_ := Some c1; session_ := Some p1 |}) as Hrel
    by (cbn; eauto 10).
  destruct (MoveFrom_spec w d s _ _ Hne Hd Hrel Hs)
    as (w' & Hrun & Hrefs & Hss & Htr & _ & _ & Hin).
  exists w'. unfold move_assign. rewrite bool_decide_true by done.
  rewrite (events_since_app _ _ _ Htr). split_and!; [done|done| | | | |done].
  - cbn. by rewrite bool_decide_true.
  - by apply (Hin _ _ _ _ eq_refl eq_refl).
  - rewrite Hrefs. apply lookup_insert_eq.
  - rewrite Hrefs, lookup_insert_ne by done. apply lookup_insert_eq.
Qed.

Lemma move_assign_releases_destination_witness :
  ∃ w', move_assign 1 2 pool_two_checked_out = (Ret tt, w')
    ∧ events_since pool_two_checked_out w' = [EvAddSession 1 (Some 1%positive); EvLock 1; EvUnlock 1]
    ∧ checkins 1 (events_since pool_two_checked_out w') = 1
    ∧ (∃ x1', caches w' !! 1%positive = Some x1'
         ∧ idle x1' (XrtSession.target session_a)
           = idle cache_a (XrtSession.target session_a) ++ [Some 1%positive])
    ∧ refs w' !! 1%positive = Some {| cache_ := Some 1%positive; session_ := Some 2%positive |}
    ∧ refs w' !! 2%positive = Some {| cache_ := None; session_ := None |}
    ∧ sessions w' = sessions pool_two_checked_out.
Proof.
  apply (move_assign_releases_destination pool_two_checked_out 1 2 1 1 1 2 cache_a session_a);
    [lia | vm_compute; reflexivity ..].
Defined.

(** C10. Self-move-assignment is the identity: [h = std::move(h)] returns
    with the whole state as it was, so [h] keeps its session and its
    back-reference, and no [AddSession] is called. *)
Theorem self_move_assign (w : World) (h : positive) :
  move_assign h h w = (Ret tt, w)
  ∧ refs (move_assign h h w).2 !! h = refs w !! h
  ∧ events_since w (move_assign h h w).2 = [].
Proof.
  assert (move_assign h h w = (Ret tt, w)) as ->.
  { unfold move_assign. rewrite bool_decide_false; [done|]. intros H. by apply H. }
  split_and!; [done..|]. apply events_since_app. by rewrite app_nil_r.
Qed.

(** Without the guard of [operator=], a self-move would go through
    [MoveFrom]: the session would be checked in and the handle left
    detached. *)
Example MoveFrom_self_unguarded :
  trace (MoveFrom 1 1 pool_checked_out).2
  = trace pool_checked_out ++ [EvAddSession 1 (Some 1%positive); EvLock 1; EvUnlock 1]
  ∧ refs (MoveFrom 1 1 pool_checked_out).2 !! 1%positive
    = Some {| cache_ := None; session_ := None |}.
Proof. split; vm_compute; reflexivity. Qed.

(** C3. No double return.  A handle as [GetSession] makes it (bound to a pool
    and owning a live session) is moved, and then the moved-from source and
    the destination both go out of scope, in either order: [AddSession] is
    called with the session exactly once (and on the construction path the
    session is then at the back of the idle deque of its target).  The move
    is a move construction, or a move assignment into another handle that
    can itself be released and does not own the same session. *)
Theorem no_double_return (w : World) (src cache p : positive)
    (c : XrtSessionCache) (s : XrtSession.t) (dst_first : bool) :
  refs w !! src = Some {| cache_ := Some cache; session_ := Some p |} →
  caches w !! cache = Some c → lock_ c = false → sessions w !! p = Some s →
  (∃ w', move_construct_and_leave src dst_first w = (Ret tt, w')
     ∧ checkins p (events_since w w') = 1
     ∧ events_since w w' = [EvAddSession cache (Some p); EvLock cache; EvUnlock cache]
     ∧ ∃ c', caches w' !! cache = Some c'
         ∧ idle c' (XrtSession.target s) = idle c (XrtSession.target s) ++ [Some p])
  ∧ (∀ dst rd, dst ≠ src → refs w !! dst = Some rd → releasable w rd →
       session_ rd ≠ Some p →
       ∃ w', move_assign_and_leave dst src dst_first w = (Ret tt, w')
         ∧ checkins p (events_since w w') = 1).
Proof.
  intros Hsrc Hc Hl Hp. split.
  - destruct (XrtSessionRef_move_ctor_run w src _ Hsrc) as [Hne Hrun].
    unfold move_construct_and_leave. rewrite (bind_Ret _ _ _ _ _ Hrun).
    match goal with |- context [leave_scope ?d src dst_first ?W] =>
      destruct (leave_scope_spec W d src cache p c s dst_first)
        as (w' & Hrun' & Htr & _ & _ & Hidle); try done end.
    { apply lookup_insert_eq. }
    { cbn. rewrite lookup_insert_ne by done. apply lookup_insert_eq. }
    exists w'. cbn in Htr. rewrite (events_since_app _ _ _ Htr).
    split_and!; [done| |done..]. cbn. by rewrite bool_decide_true.
  - intros dst rd Hne Hdst Hrel Hother.
    destruct (MoveFrom_spec w dst src _ _ Hne Hdst Hrel Hsrc)
      as (w1 & Hrun1 & Hrefs1 & Hss1 & Htr1 & Hcs1 & _).
    destruct (Hcs1 _ _ Hc Hl) as (c1 & Hc1 & Hl1).
    rewrite <- Hss1 in Hp.
    destruct (leave_scope_spec w1 dst src cache p c1 s dst_first)
      as (w' & Hrun' & Htr & _); try done.
    { rewrite Hrefs1. apply lookup_insert_eq. }
    { rewrite Hrefs1, lookup_insert_ne by done. apply lookup_insert_eq. }
    exists w'. unfold move_assign_and_leave, move_assign.
    rewrite bool_decide_true by done. rewrite (bind_Ret _ _ _ _ _ Hrun1).
    split; [done|].
    rewrite Htr1, <- app_assoc in Htr. rewrite (events_since_app _ _ _ Htr).
    rewrite checkins_app, checkins_Detach_events.
    destruct (cache_ rd); [rewrite bool_decide_false by done|]; cbn;
      by rewrite bool_decide_true.
Qed.

Lemma no_double_return_witness :
  (∃ w', move_construct_and_leave 2 true pool_two_checked_out = (Ret tt, w')
     ∧ checkins 2 (events_since pool_two_checked_out w') = 1
     ∧ events_since pool_two_checked_out w'
       = [EvAddSession 1 (Some 2%positive); EvLock 1; EvUnlock 1]
     ∧ ∃ c', caches w' !! 1%positive = Some c'
         ∧ idle c' (XrtSession.target session_a)
           = idle cache_a (XrtSession.target session_a) ++ [Some 2%positive])
  ∧ (∃ w', move_assign_and_leave 1 2 true pool_two_checked_out = (Ret tt, w')
       ∧ checkins 2 (events_since pool_two_checked_out w') = 1).
Proof.
  destruct (no_double_return pool_two_checked_out 2 1 2 cache_a session_a true)
    as [Hctor Hassign]; [vm_compute; reflexivity ..|].
  split; [exact Hctor|].
  apply (Hassign 1%positive {| cache_ := Some 1%positive; session_ := Some 1%positive |}).
  - lia.
  - vm_compute; reflexivity.
  - exists cache_a, 1%positive, session_a. repeat split; vm_compute; reflexivity.
  - cbn. intros [=].
Defined.

(** * Further properties of the pool *)

(** ** What a checkout leaves alone *)

(** X1. A [GetSession] that returns or throws leaves everything but the deque
    of its own target alone: the handles, the environment and the transport,
    every other pool, and in its own pool the deque of every other target. *)
Theorem GetSession_frame (w : World) (this : positive) (target : string)
    (c : XrtSessionCache) (o : Outcome XrtSessionRef) (w' : World) :
  caches w !! this = Some c →
  GetSession this target w = (o, w') → (∀ f, o ≠ Stuck f) →
  refs w' = refs w ∧ sys_util w' = sys_util w ∧ establish w' = establish w
  ∧ (∀ other, other ≠ this → caches w' !! other = caches w !! other)
  ∧ ∃ c', caches w' !! this = Some c'
      ∧ ∀ key, key ≠ target → session_map_ c' !! key = session_map_ c !! key.
Proof.
  intros Hc Hrun Hns.
  destruct (GetSession_inv _ _ _ _ _ Hrun) as [[f ->] | (c0 & Hc0 & Hl & Hcase)];
    [by destruct (Hns f)|].
  rewrite Hc in Hc0. injection Hc0 as <-.
  destruct Hcase as [Hq | (q & p & s & Hq & Hs)].
  - rewrite (GetSession_create _ _ _ _ Hc Hl Hq) in Hrun. cbn zeta in Hrun.
    destruct (establish w _); injection Hrun as <- <-; cbn;
      (split_and!; [done..| |]);
      [ intros other Hne; by rewrite lookup_insert_ne
      | eexists; split; [apply lookup_insert_eq|]; intros key Hk; cbn;
        by rewrite lookup_insert_ne
      | intros other Hne; by rewrite lookup_insert_ne
      | eexists; split; [apply lookup_insert_eq|]; intros key Hk; cbn;
        by rewrite lookup_insert_ne ].
  - rewrite (GetSession_reuse _ _ _ _ _ _ _ Hc Hl Hq Hs) in Hrun.
    injection Hrun as <- <-. cbn. split_and!; [done..| |].
    + intros other Hne. by rewrite lookup_insert_ne.
    + eexists. split; [apply lookup_insert_eq|]. intros key Hk. cbn.
      by rewrite lookup_insert_ne.
Qed.

Lemma GetSession_frame_witness :
  refs (GetSession 1 "b" pool_two_checked_out).2 = refs pool_two_checked_out
  ∧ sys_util (GetSession 1 "b" pool_two_checked_out).2 = sys_util pool_two_checked_out
  ∧ establish (GetSession 1 "b" pool_two_checked_out).2 = establish pool_two_checked_out
  ∧ (∀ other, other ≠ 1%positive →
       caches (GetSession 1 "b" pool_two_checked_out).2 !! other
       = caches pool_two_checked_out !! other)
  ∧ ∃ c', caches (GetSession 1 "b" pool_two_checked_out).2 !! 1%positive = Some c'
      ∧ ∀ key, key ≠ "b" → session_map_ c' !! key = session_map_ cache_a !! key.
Proof.
  apply (GetSession_frame pool_two_checked_out 1 "b" cache_a
           (GetSession 1 "b" pool_two_checked_out).1).
  - vm_compute; reflexivity.
  - vm_compute; reflexivity.
  - vm_compute. intros f [=].
Defined.



(** X3. With a session idle for the target, [GetSession] needs no transport:
    whatever the transport would answer, it returns the session at the back
    of the deque, calls [CreateSession] not once, and the live sessions are
    the same addresses as before. *)
Theorem GetSession_reuse_never_creates (w : World) (this : positive)
    (target : string) (c : XrtSessionCache) (q : list (option positive))
    (p : positive) (s : XrtSession.t) :
  caches w !! this = Some c → lock_ c = false →
  session_map_ c !! target = Some (q ++ [Some p]) → sessions w !! p = Some s →
  ∃ w', GetSession this target w
        = (Ret {| cache_ := Some this; session_ := Some p |}, w')
    ∧ List.filter is_create_event (events_since w w') = []
    ∧ dom (sessions w') = dom (sessions w)
    ∧ ∃ c', caches w' !! this = Some c' ∧ idle c' target = q.
Proof.
  intros Hc Hl Hq Hs.
  eexists. split; [by eapply GetSession_reuse|]. cbn.
  rewrite (events_since_app w _ [EvLock this; EvUnlock this]) by done.
  split_and!; [done| |].
  - apply dom_insert_lookup_L. eauto.
  - eexists. split; [apply lookup_insert_eq|]. unfold idle. cbn.
    by rewrite lookup_insert_eq.
Qed.

Lemma GetSession_reuse_never_creates_witness :
  ∃ w', GetSession 1 "a" (pool_one_idle false)
        = (Ret {| cache_ := Some 1%positive; session_ := Some 1%positive |}, w')
    ∧ List.filter is_create_event (events_since (pool_one_idle false) w') = []
    ∧ dom (sessions w') = dom (sessions (pool_one_idle false))
    ∧ ∃ c', caches w' !! 1%positive = Some c' ∧ idle c' "a" = [].
Proof.
  apply (GetSession_reuse_never_creates (pool_one_idle false) 1 "a"
           {| lock_ := false; session_map_ := <["a" := [Some 1%positive]]> ∅ |}
           [] 1 session_a); vm_compute; reflexivity.
Defined.

(** ** The mutex *)

(** X4. Both pool operations take the mutex once and give it back on every
    way out: after a [GetSession] that returns or throws, and after an
    [AddSession] that returns, the mutex events are one lock and one unlock
    of this pool and the mutex is free.  The mutex is not recursive: on a
    pool whose mutex is held, both operations stop at the lock and the pool
    is not touched. *)
Theorem pool_mutex_discipline :
  (∀ w this target o w',
     GetSession this target w = (o, w') → (∀ f, o ≠ Stuck f) →
     List.filter is_mutex_event (events_since w w') = [EvLock this; EvUnlock this]
     ∧ ∃ c', caches w' !! this = Some c' ∧ lock_ c' = false)
  ∧ (∀ w this session w',
       AddSession this session w = (Ret tt, w') →
       List.filter is_mutex_event (events_since w w') = [EvLock this; EvUnlock this]
       ∧ ∃ c', caches w' !! this = Some c' ∧ lock_ c' = false)
  ∧ (∀ w this target c,
       caches w !! this = Some c → lock_ c = true →
       GetSession this target w = (Stuck LockHeldMutex, w))
  ∧ (∀ w this session c,
       caches w !! this = Some c → lock_ c = true →
       (AddSession this session w).1 = Stuck LockHeldMutex
       ∧ caches (AddSession this session w).2 = caches w
       ∧ sessions (AddSession this session w).2 = sessions w).
Proof.
  split_and!.
  - intros w this target o w' Hrun Hns.
    destruct (GetSession_inv _ _ _ _ _ Hrun) as [[f ->] | (c & Hc & Hl & Hcase)];
      [by destruct (Hns f)|].
    destruct Hcase as [Hq | (q & p & s & Hq & Hs)].
    + rewrite (GetSession_create _ _ _ _ Hc Hl Hq) in Hrun. cbn zeta in Hrun.
      destruct (establish w _); injection Hrun as <- <-;
        rewrite (events_since_app w _ [EvLock this; EvCreateSession target; EvUnlock this])
          by done;
        (split; [done|]); eexists; (split; [apply lookup_insert_eq|done]).
    + rewrite (GetSession_reuse _ _ _ _ _ _ _ Hc Hl Hq Hs) in Hrun.
      injection Hrun as <- <-.
      rewrite (events_since_app w _ [EvLock this; EvUnlock this]) by done.
      split; [done|]. eexists. split; [apply lookup_insert_eq|done].
  - intros w this session w' Hrun.
    destruct (AddSession_inv _ _ _ _ _ Hrun) as [[f [=]] | (c & p & s & -> & Hc & Hl & Hs)].
    rewrite (AddSession_run _ _ _ _ _ Hc Hl Hs) in Hrun. injection Hrun as <-.
    rewrite (events_since_app w _ [EvAddSession this (Some p); EvLock this; EvUnlock this])
      by done.
    split; [done|]. eexists. split; [apply lookup_insert_eq|done].
  - intros w this target c Hc Hl. unfold GetSession. mrun. done.
  - intros w this session c Hc Hl. unfold AddSession. mrun. done.
Qed.

Lemma pool_mutex_discipline_witness :
  (List.filter is_mutex_event
     (events_since (pool_empty false) (GetSession 1 "a" (pool_empty false)).2)
   = [EvLock 1; EvUnlock 1]
   ∧ ∃ c', caches (GetSession 1 "a" (pool_empty false)).2 !! 1%positive = Some c'
       ∧ lock_ c' = false)
  ∧ (List.filter is_mutex_event
       (events_since pool_checked_out (AddSession 1 (Some 1%positive) pool_checked_out).2)
     = [EvLock 1; EvUnlock 1]
     ∧ ∃ c', caches (AddSession 1 (Some 1%positive) pool_checked_out).2 !! 1%positive = Some c'
         ∧ lock_ c' = false).
Proof.
  destruct pool_mutex_discipline as (Hget & Hadd & _ & _).
  split.
  - apply (Hget (pool_empty false) 1%positive "a"
             (GetSession 1 "a" (pool_empty false)).1).
    + vm_compute; reflexivity.
    + vm_compute. intros f [=].
  - apply (Hadd pool_checked_out 1%positive (Some 1%positive)).
    vm_compute; reflexivity.
Defined.

(** ** Handle code that never reaches the pool *)















(** ** Release and checkout together *)

Lemma idle_snoc_lookup c key q x :
  idle c key = q ++ [x] → session_map_ c !! key = Some (q ++ [x]).
Proof.
  unfold idle. destruct (session_map_ c !! key) as [q0|]; cbn; [by intros ->|].
  intros E. by destruct q.
Qed.

(** X6. Return guarantee.  When a handle that owns a session goes out of
    scope, the next [GetSession] for the target of that session returns that
    very session, after a [Reset]; the deque of the target is then as it was
    before the release, and the handle is gone. *)
Theorem release_then_checkout (w : World) (h this p : positive)
    (c : XrtSessionCache) (s : XrtSession.t) :
  refs w !! h = Some {| cache_ := Some this; session_ := Some p |} →
  caches w !! this = Some c → lock_ c = false → sessions w !! p = Some s →
  ∃ w', (XrtSessionRef_dtor h ;; GetSession this (XrtSession.target s)) w
        = (Ret {| cache_ := Some this; session_ := Some p |}, w')
    ∧ sessions w' !! p = Some (XrtSession.Reset s)
    ∧ refs w' !! h = None
    ∧ ∃ c', caches w' !! this = Some c'
        ∧ idle c' (XrtSession.target s) = idle c (XrtSession.target s).
Proof.
  intros Hh Hc Hl Hs.
  assert (releasable w {| cache_ := Some this; session_ := Some p |}) as Hrel
    by (cbn; eauto 10).
  destruct (XrtSessionRef_dtor_spec w h _ Hh Hrel)
    as (w1 & Hrun1 & Hrefs1 & Hs1 & _ & Hlock & _ & Hin).
  destruct (Hin _ _ _ _ eq_refl eq_refl Hc Hs) as (c1 & Hc1 & Hidle).
  destruct (Hlock _ _ Hc Hl) as (c1' & Hc1' & Hl1).
  rewrite Hc1 in Hc1'. injection Hc1' as <-.
  apply idle_snoc_lookup in Hidle. rewrite <- Hs1 in Hs.
  destruct (GetSession_reuse_spec w1 this _ c1 _ p s Hc1 Hl1 Hidle Hs)
    as (w2 & c2 & Hrun2 & Hc2 & _ & Hm2 & Hs2).
  exists w2. rewrite (bind_Ret _ _ _ _ _ Hrun1). split_and!; [done|..].
  - rewrite Hs2. apply lookup_insert_eq.
  - destruct (GetSession_frame w1 this _ c1 _ w2 Hc1 Hrun2) as (-> & _); [done|].
    rewrite Hrefs1. apply lookup_delete_eq.
  - exists c2. split; [done|]. unfold idle at 1. by rewrite Hm2, lookup_insert_eq.
Qed.

Lemma release_then_checkout_witness :
  ∃ w', (XrtSessionRef_dtor 1 ;; GetSession 1 (XrtSession.target session_a)) pool_checked_out
        = (Ret {| cache_ := Some 1%positive; session_ := Some 1%positive |}, w')
    ∧ sessions w' !! 1%positive = Some (XrtSession.Reset session_a)
    ∧ refs w' !! 1%positive = None
    ∧ ∃ c', caches w' !! 1%positive = Some c'
        ∧ idle c' (XrtSession.target session_a) = idle cache_a (XrtSession.target session_a).
Proof.
  apply (release_then_checkout pool_checked_out 1 1 1 cache_a session_a);
    vm_compute; reflexivity.
Defined.

Lemma checkout_create_spec w this target c :
  caches w !! this = Some c → lock_ c = false → idle c target = [] →
  establish w (session_options (sys_util w) target) = true →
  ∃ w', checkout this target w = (Ret (fresh (dom (refs w))), w')
    ∧ refs w' = <[fresh (dom (refs w)) :=
                    {| cache_ := Some this; session_ := Some (fresh (dom (sessions w))) |}]>
                  (refs w)
    ∧ sessions w' = <[fresh (dom (sessions w)) :=
                        XrtSession.ctor (session_options (sys_util w) target)]>
                      (sessions w)
    ∧ (∃ c', caches w' !! this = Some c' ∧ lock_ c' = false
         ∧ session_map_ c' = <[target := []]> (session_map_ c))
    ∧ sys_util w' = sys_util w ∧ establish w' = establish w.
Proof.
  intros Hc Hl Hq He. unfold checkout.
  pose proof (GetSession_create w this target c Hc Hl Hq) as Hrun. cbn zeta in Hrun.
  rewrite He in Hrun. rewrite (bind_Ret _ _ _ _ _ Hrun). unfold new_ref. mrun.
  eexists. split; [done|]. cbn. split_and!; try done.
  eexists. split; [apply lookup_insert_eq|done].
Qed.

(** X7. Two checkouts in a row for a target with nothing idle create two
    different sessions, neither of which was live before, in two different
    handles bound to this pool; and when both handles go out of scope, in
    reverse order of declaration, the pool holds both sessions idle for the
    target, the one released last at the back. *)
Theorem two_checkouts_create_distinct (w : World) (this : positive)
    (c : XrtSessionCache) (target : string) :
  caches w !! this = Some c → lock_ c = false → idle c target = [] →
  establish w (session_options (sys_util w) target) = true →
  ∃ h1 h2 p1 p2 w2,
    checkout_twice this target w = (Ret (h1, h2), w2)
    ∧ h1 ≠ h2 ∧ p1 ≠ p2
    ∧ sessions w !! p1 = None ∧ sessions w !! p2 = None
    ∧ refs w2 !! h1 = Some {| cache_ := Some this; session_ := Some p1 |}
    ∧ refs w2 !! h2 = Some {| cache_ := Some this; session_ := Some p2 |}
    ∧ ∃ w4 c4, (XrtSessionRef_dtor h2 ;; XrtSessionRef_dtor h1) w2 = (Ret tt, w4)
        ∧ caches w4 !! this = Some c4
        ∧ idle c4 target = [Some p2; Some p1].
Proof.
  intros Hc Hl Hq He.
  destruct (checkout_create_spec w this target c Hc Hl Hq He)
    as (w1 & Hrun1 & Hrefs1 & Hss1 & (c1 & Hc1 & Hl1 & Hm1) & Hsys1 & Hest1).
  assert (idle c1 target = []) as Hq1.
  { unfold idle. by rewrite Hm1, lookup_insert_eq. }
  assert (establish w1 (session_options (sys_util w1) target) = true) as He1
    by (by rewrite Hest1, Hsys1).
  destruct (checkout_create_spec w1 this target c1 Hc1 Hl1 Hq1 He1)
    as (w2 & Hrun2 & Hrefs2 & Hss2 & (c2 & Hc2 & Hl2 & Hm2) & _).
  set (h1 := fresh (dom (refs w))) in *. set (h2 := fresh (dom (refs w1))) in *.
  set (p1 := fresh (dom (sessions w))) in *. set (p2 := fresh (dom (sessions w1))) in *.
  set (o := session_options (sys_util w) target) in *.
  assert (sessions w !! p1 = None) as Hp1 by apply not_elem_of_dom, is_fresh.
  assert (sessions w1 !! p2 = None) as Hp2 by apply not_elem_of_dom, is_fresh.
  assert (refs w1 !! h2 = None) as Hh2 by apply not_elem_of_dom, is_fresh.
  assert (p1 ≠ p2) as Hpne.
  { intros E. rewrite Hss1, <- E, lookup_insert_eq in Hp2. done. }
  assert (h1 ≠ h2) as Hhne.
  { intros E. rewrite Hrefs1, <- E, lookup_insert_eq in Hh2. done. }
  assert (refs w2 !! h1 = Some {| cache_ := Some this; session_ := Some p1 |}) as Hr1.
  { rewrite Hrefs2, lookup_insert_ne by done. rewrite Hrefs1. apply lookup_insert_eq. }
  assert (refs w2 !! h2 = Some {| cache_ := Some this; session_ := Some p2 |}) as Hr2.
  { rewrite Hrefs2. apply lookup_insert_eq. }
  assert (sessions w2 !! p1 = Some (XrtSession.ctor o)) as Hs1.
  { rewrite Hss2, lookup_insert_ne by done. rewrite Hss1. apply lookup_insert_eq. }
  assert (sessions w2 !! p2 = Some (XrtSession.ctor (session_options (sys_util w1) target)))
    as Hs2.
  { rewrite Hss2. apply lookup_insert_eq. }
  assert (idle c2 target = []) as Hq2.
  { unfold idle. by rewrite Hm2, lookup_insert_eq. }
  exists h1, h2, p1, p2, w2. split_and!; try done.
  { unfold checkout_twice.
    by rewrite (bind_Ret _ _ _ _ _ Hrun1), (bind_Ret _ _ _ _ _ Hrun2). }
  { rewrite Hss1 in Hp2. by rewrite lookup_insert_ne in Hp2. }
  assert (releasable w2 {| cache_ := Some this; session_ := Some p2 |}) as Hrel2
    by (cbn; eauto 10).
  destruct (XrtSessionRef_dtor_spec w2 h2 _ Hr2 Hrel2)
    as (w3 & Hrun3 & Hrefs3 & Hss3 & _ & Hlock3 & _ & Hin3).
  destruct (Hin3 _ _ _ _ eq_refl eq_refl Hc2 Hs2) as (c3 & Hc3 & Hidle3).
  destruct (Hlock3 _ _ Hc2 Hl2) as (c3' & Hc3' & Hl3).
  rewrite Hc3 in Hc3'. injection Hc3' as <-.
  cbn in Hidle3. rewrite Hq2 in Hidle3.
  assert (refs w3 !! h1 = Some {| cache_ := Some this; session_ := Some p1 |}) as Hr1'.
  { rewrite Hrefs3, lookup_delete_ne by done. done. }
  rewrite <- Hss3 in Hs1.
  assert (releasable w3 {| cache_ := Some this; session_ := Some p1 |}) as Hrel1
    by (cbn; eauto 10).
  destruct (XrtSessionRef_dtor_spec w3 h1 _ Hr1' Hrel1)
    as (w4 & Hrun4 & _ & _ & _ & _ & _ & Hin4).
  destruct (Hin4 _ _ _ _ eq_refl eq_refl Hc3 Hs1) as (c4 & Hc4 & Hidle4).
  cbn in Hidle4. rewrite Hidle3 in Hidle4.
  exists w4, c4. by rewrite (bind_Ret _ _ _ _ _ Hrun3).
Qed.

Lemma two_checkouts_create_distinct_witness :
  ∃ h1 h2 p1 p2 w2,
    checkout_twice 1 "host:1" (pool_empty true) = (Ret (h1, h2), w2)
    ∧ h1 ≠ h2 ∧ p1 ≠ p2
    ∧ sessions (pool_empty true) !! p1 = None ∧ sessions (pool_empty true) !! p2 = None
    ∧ refs w2 !! h1 = Some {| cache_ := Some 1%positive; session_ := Some p1 |}
    ∧ refs w2 !! h2 = Some {| cache_ := Some 1%positive; session_ := Some p2 |}
    ∧ ∃ w4 c4, (XrtSessionRef_dtor h2 ;; XrtSessionRef_dtor h1) w2 = (Ret tt, w4)
        ∧ caches w4 !! 1%positive = Some c4
        ∧ idle c4 "host:1" = [Some p2; Some p1].
Proof.
  apply (two_checkouts_create_distinct (pool_empty true) 1
           {| lock_ := false; session_map_ := ∅ |} "host:1"); vm_compute; reflexivity.
Defined.

(** ** Moves that owe the pool nothing *)



(** ** What the pool does not check *)

(** X9. [AddSession] is public and does not look for the session among the
    idle ones: a live session that is checked in twice is filed twice, and
    the next two checkouts for its target both return it. *)
Theorem double_checkin_hands_out_twice (w : World) (this p : positive)
    (c : XrtSessionCache) (s : XrtSession.t) :
  caches w !! this = Some c → lock_ c = false → sessions w !! p = Some s →
  ∃ w', checkin_twice_checkout_twice this (Some p) (XrtSession.target s) w
        = (Ret (Some p, Some p), w')
    ∧ ∃ c', caches w' !! this = Some c'
        ∧ idle c' (XrtSession.target s) = idle c (XrtSession.target s).
Proof.
  intros Hc Hl Hs.
  destruct (AddSession_spec w this c p s Hc Hl Hs)
    as (w1 & c1 & Hrun1 & Hc1 & Hl1 & Hm1 & _ & Hss1 & _).
  assert (idle c1 (XrtSession.target s) = idle c (XrtSession.target s) ++ [Some p]) as Hi1.
  { unfold idle at 1. by rewrite Hm1, lookup_insert_eq. }
  rewrite <- Hss1 in Hs.
  destruct (AddSession_spec w1 this c1 p s Hc1 Hl1 Hs)
    as (w2 & c2 & Hrun2 & Hc2 & Hl2 & Hm2 & _ & Hss2 & _).
  rewrite Hi1 in Hm2.
  assert (session_map_ c2 !! XrtSession.target s
          = Some ((idle c (XrtSession.target s) ++ [Some p]) ++ [Some p])) as Hq2
    by (by rewrite Hm2, lookup_insert_eq).
  rewrite <- Hss2 in Hs.
  destruct (GetSession_reuse_spec w2 this _ c2 _ p s Hc2 Hl2 Hq2 Hs)
    as (w3 & c3 & Hrun3 & Hc3 & Hl3 & Hm3 & Hss3).
  assert (session_map_ c3 !! XrtSession.target s
          = Some (idle c (XrtSession.target s) ++ [Some p])) as Hq3
    by (by rewrite Hm3, lookup_insert_eq).
  assert (sessions w3 !! p = Some (XrtSession.Reset s)) as Hs3
    by (rewrite Hss3; apply lookup_insert_eq).
  destruct (GetSession_reuse_spec w3 this _ c3 _ p _ Hc3 Hl3 Hq3 Hs3)
    as (w4 & c4 & Hrun4 & Hc4 & _ & Hm4 & _).
  exists w4. split.
  - unfold checkin_twice_checkout_twice.
    by rewrite (bind_Ret _ _ _ _ _ Hrun1), (bind_Ret _ _ _ _ _ Hrun2),
      (bind_Ret _ _ _ _ _ Hrun3), (bind_Ret _ _ _ _ _ Hrun4).
  - exists c4. split; [done|]. unfold idle at 1. by rewrite Hm4, lookup_insert_eq.
Qed.

Lemma double_checkin_hands_out_twice_witness :
  ∃ w', checkin_twice_checkout_twice 1 (Some 1%positive) (XrtSession.target session_a)
          pool_checked_out
        = (Ret (Some 1%positive, Some 1%positive), w')
    ∧ ∃ c', caches w' !! 1%positive = Some c'
        ∧ idle c' (XrtSession.target session_a) = idle cache_a (XrtSession.target session_a).
Proof.
  apply (double_checkin_hands_out_twice pool_checked_out 1 1 cache_a session_a);
    vm_compute; reflexivity.
Defined.
